(** * PubMed / GitHub link harvesting scripts

    Shallow embedding of the two scripts of the repository:

    - [pubmed.py]      (the first script; module [Legacy] below);
    - [src/pubmed.py]  (the revised script; module [Current] below).

    Both are sequential programs: a paged search against the remote
    search endpoint, a batched fetch of the record documents, extraction
    of a GitHub link from every record and a bulk insert into a DuckDB
    file.  Remote calls and sleeps are recorded in an event trace, the
    DuckDB file is an explicit store, Python exceptions are an error
    value.  Logging has no influence on the control flow and is left
    out.  A response is given by its status code and the tree its body
    parses to; failures of the transport itself are not modelled.
    Texts are strings of code points below 256. *)

From Stdlib Require Import List String Ascii ZArith Lia Bool Arith PeanoNat.
Import ListNotations.
Open Scope string_scope.
Open Scope list_scope.
Set Warnings "-register-all,-abstract-large-number".

(** ** Python values used by the scripts *)

(** [None] is the only absent value the scripts use: an optional string
    is [option string]. *)
Definition is_not_None {A : Type} (o : option A) : bool :=
  match o with Some _ => true | None => false end.

(** Truth value of an optional string ([if element.text:]): [None] and
    the empty string are false. *)
Definition truthy (o : option string) : bool :=
  match o with
  | Some EmptyString => false
  | Some _ => true
  | None => false
  end.

(** ** xml.etree.ElementTree *)

(** An element carries its tag, the text before its first child, its
    children, and the text that follows its end tag ([tail]). *)
Inductive Element : Type :=
  Elem (tag : string) (text : option string)
       (children : list Element) (tail : option string).

Definition tag (e : Element) : string :=
  match e with Elem t _ _ _ => t end.
Definition text (e : Element) : option string :=
  match e with Elem _ x _ _ => x end.
Definition children (e : Element) : list Element :=
  match e with Elem _ _ cs _ => cs end.
Definition tail (e : Element) : option string :=
  match e with Elem _ _ _ x => x end.

(** [Element.iter()]: the element itself, then its descendants, in
    document (depth-first, pre-order) order. *)
Fixpoint iter (e : Element) : list Element :=
  match e with
  | Elem _ _ cs _ => e :: flat_map iter cs
  end.

(** [t = ...; if t: yield t] *)
Definition if_text (o : option string) : list string :=
  match o with
  | Some s => if truthy o then [s] else []
  | None => []
  end.

(** [Element.itertext()]: every text of the sub-document in document
    order, the tails of the descendants included (the element's own tail
    is not part of it). *)
Fixpoint itertext (e : Element) : list string :=
  match e with
  | Elem _ x cs _ =>
      if_text x ++ flat_map (fun c => itertext c ++ if_text (tail c)) cs
  end.

Definition has_tag (t : string) (e : Element) : bool := String.eqb (tag e) t.

(** The steps of the ElementPath expressions the scripts use. *)
Inductive step : Type :=
| SelfStep                  (* [.]      *)
| ChildStep (t : string)    (* [t]      *)
| DescStep (t : string).    (* [//t]    *)

(** One selector applied to the current result list (the [select]
    closures of [ElementPath]). *)
Definition select (st : step) (result : list Element) : list Element :=
  match st with
  | SelfStep => result
  | ChildStep t =>
      flat_map (fun elem => filter (has_tag t) (children elem)) result
  | DescStep t =>
      flat_map (fun elem =>
                  filter (has_tag t) (flat_map iter (children elem))) result
  end.

Definition findall (path : list step) (elem : Element) : list Element :=
  fold_left (fun result st => select st result) path [elem].

Definition find (path : list step) (elem : Element) : option Element :=
  hd_error (findall path elem).

(** ** The regular expression of [find_github_link] *)

(** The fragment of [re] the pattern needs: literals, a character
    class, sequence, the greedy optional group [?] and the greedy [+]
    of a class. *)
Inductive regex : Type :=
| Lit (s : string)
| Seq (r1 r2 : regex)
| Opt (r : regex)
| PlusClass (p : ascii -> bool).

(** [\s] on the code points below 256 ([str.isspace]). *)
Definition is_space (c : ascii) : bool :=
  let n := nat_of_ascii c in
  (((9 <=? n) && (n <=? 13)) || ((28 <=? n) && (n <=? 32))
   || (n =? 133) || (n =? 160))%nat.

(** [[^\s/]] *)
Definition not_space_slash (c : ascii) : bool :=
  negb (is_space c) && negb (Ascii.eqb c "/").

Fixpoint strip_prefix (p s : string) : option string :=
  match p with
  | EmptyString => Some s
  | String a p' =>
      match s with
      | String b s' => if Ascii.eqb a b then strip_prefix p' s' else None
      | EmptyString => None
      end
  end.

(** Greedy [+] of a class with backtracking: take one character, try to
    take more, and only then hand over to the continuation. *)
Fixpoint plus_class {A : Type} (p : ascii -> bool) (s : string)
         (k : string -> option A) : option A :=
  match s with
  | String c s' =>
      if p c then
        match plus_class p s' k with
        | Some x => Some x
        | None => k s'
        end
      else None
  | EmptyString => None
  end.

(** Backtracking matcher in continuation style: [matchk r s k] matches
    [r] at the start of [s] and passes the rest to [k]; the first
    success in the order [re] tries the alternatives is returned. *)
Fixpoint matchk {A : Type} (r : regex) (s : string)
         (k : string -> option A) : option A :=
  match r with
  | Lit l => match strip_prefix l s with Some s' => k s' | None => None end
  | Seq r1 r2 => matchk r1 s (fun s' => matchk r2 s' k)
  | Opt r1 =>
      match matchk r1 s k with
      | Some x => Some x
      | None => k s
      end
  | PlusClass p => plus_class p s k
  end.

Fixpoint take (n : nat) (s : string) : string :=
  match n, s with
  | S n', String c s' => String c (take n' s')
  | _, _ => EmptyString
  end.

(** [re.match(r, s).group(0)] *)
Definition re_match (r : regex) (s : string) : option string :=
  match matchk r s (fun rest => Some rest) with
  | Some rest => Some (take (String.length s - String.length rest) s)
  | None => None
  end.

(** [re.search(r, s).group(0)]: the match at the leftmost position that
    has one. *)
Fixpoint re_search (r : regex) (s : string) : option string :=
  match re_match r s with
  | Some m => Some m
  | None =>
      match s with
      | String _ s' => re_search r s'
      | EmptyString => None
      end
  end.

(** [r'https?://(?:www\.)?github\.com/[^\s/]+/[^\s/]+'] *)
Definition github_regex : regex :=
  Seq (Lit "http") (Seq (Opt (Lit "s")) (Seq (Lit "://")
  (Seq (Opt (Lit "www.")) (Seq (Lit "github.com/")
  (Seq (PlusClass not_space_slash) (Seq (Lit "/")
       (PlusClass not_space_slash))))))).

(** [find_github_link]: identical in both scripts. *)
Fixpoint first_link (elements : list Element) : option string :=
  match elements with
  | [] => None
  | element :: rest =>
      if truthy (text element) then
        match re_search github_regex
                        (match text element with Some s => s | None => "" end)
        with
        | Some m => Some m
        | None => first_link rest
        end
      else first_link rest
  end.

Definition find_github_link (article : Element) : option string :=
  first_link (iter article).

(** ** Exceptions, events and the monad of the scripts *)

Inductive endpoint : Type := ESearch | EFetch.

(** The exceptions a run can end with.  [RemoteError] is the
    [Exception("... failed with status code ...")] the scripts raise
    themselves; the others come from the Python runtime and from
    [ElementTree.fromstring]. *)
Inductive error : Type :=
| RemoteError (ep : endpoint) (status : Z)
| ParseError
| AttributeError
| TypeError
| ValueError.

(** A computation ends with a value, with an exception, or is still
    running when the fuel of its [while True] loop is used up. *)
Inductive outcome (A : Type) : Type :=
| Ok (a : A)
| Raise (e : error)
| OutOfFuel.
Arguments Ok {A} a.
Arguments Raise {A} e.
Arguments OutOfFuel {A}.

(** A GET request, by the parameters that vary in its URL: the search
    term with the [retstart]/[retmax] window, or the comma-joined [id]
    list of a fetch. *)
Inductive request : Type :=
| Search (term : string) (retstart retmax : nat)
| Fetch (id : string).

Definition endpoint_of (rq : request) : endpoint :=
  match rq with Search _ _ _ => ESearch | Fetch _ => EFetch end.

Inductive event : Type :=
| Get (rq : request) (status : Z)
| Sleep (seconds : nat).

(** [requests.Response]: the status code and the body, given by the
    tree [ElementTree.fromstring] builds from it ([None] for a body that
    is not well-formed). *)
Record Response : Type := mkResponse {
  status_code : Z;
  content : option Element
}.

(** The remote service: the answer to every request. *)
Definition remote : Type := request -> Response.

Definition M (A : Type) : Type := (outcome A * list event)%type.

Definition ret {A : Type} (a : A) : M A := (Ok a, []).
Definition raise {A : Type} (e : error) : M A := (Raise e, []).
Definition out_of_fuel {A : Type} : M A := (OutOfFuel, []).

Definition bind {A B : Type} (m : M A) (f : A -> M B) : M B :=
  match m with
  | (Ok a, t) => let (o, t') := f a in (o, t ++ t')
  | (Raise e, t) => (Raise e, t)
  | (OutOfFuel, t) => (OutOfFuel, t)
  end.

Notation "x <- m ;; k" := (bind m (fun x => k))
  (at level 61, m at next level, right associativity).
Notation "m ;;; k" := (bind m (fun _ => k))
  (at level 61, right associativity).

Definition requests_get (r : remote) (rq : request) : M Response :=
  (Ok (r rq), [Get rq (status_code (r rq))]).

Definition time_sleep (seconds : nat) : M unit := (Ok tt, [Sleep seconds]).

(** [ElementTree.fromstring(response.content)] *)
Definition fromstring (body : option Element) : M Element :=
  match body with
  | Some root => ret root
  | None => raise ParseError
  end.

(** [x.text] where [x] is the result of a [find]: attribute access on
    [None] raises. *)
Definition dot_text (x : option Element) : M (option string) :=
  match x with
  | Some e => ret (text e)
  | None => raise AttributeError
  end.

(** [for x in l: ...] collecting the results with [append]. *)
Fixpoint for_each {A B : Type} (f : A -> M B) (l : list A) : M (list B) :=
  match l with
  | [] => ret []
  | x :: l' => y <- f x ;; ys <- for_each f l' ;; ret (y :: ys)
  end.

(** *** [int(...)] on a text *)

Definition is_digit (c : ascii) : bool :=
  let n := nat_of_ascii c in ((48 <=? n) && (n <=? 57))%nat.

Definition digit_value (c : ascii) : Z := Z.of_nat (nat_of_ascii c - 48).

(** Decimal digits, single underscores allowed between two digits. *)
Fixpoint digits (acc : Z) (after_digit : bool) (s : list ascii) : option Z :=
  match s with
  | [] => if after_digit then Some acc else None
  | c :: s' =>
      if is_digit c then digits (10 * acc + digit_value c) true s'
      else if Ascii.eqb c "_" && after_digit then digits acc false s'
      else None
  end.

Fixpoint lstrip (s : list ascii) : list ascii :=
  match s with
  | c :: s' => if is_space c then lstrip s' else s
  | [] => []
  end.

Definition strip (s : list ascii) : list ascii :=
  rev (lstrip (rev (lstrip s))).

Definition int_of_string (s : string) : option Z :=
  match strip (list_ascii_of_string s) with
  | c :: s' =>
      if Ascii.eqb c "-" then option_map Z.opp (digits 0 false s')
      else if Ascii.eqb c "+" then digits 0 false s'
      else digits 0 false (c :: s')
  | [] => None
  end.

(** [int(x)] for an optional text: [int(None)] is a [TypeError], a text
    that is no integer literal a [ValueError]. *)
Definition py_int (x : option string) : M Z :=
  match x with
  | None => raise TypeError
  | Some s =>
      match int_of_string s with
      | Some z => ret z
      | None => raise ValueError
      end
  end.

(** [','.join(ids)]: every item has to be a [str]. *)
Fixpoint join_comma (ids : list (option string)) : M string :=
  match ids with
  | [] => ret ""
  | None :: _ => raise TypeError
  | Some x :: [] => ret x
  | Some x :: rest => s <- join_comma rest ;; ret (x ++ "," ++ s)%string
  end.

(** [range(0, stop, step)] for a non-negative step; a zero step is a
    [ValueError]. *)
Definition py_range (stop step : nat) : M (list nat) :=
  match step with
  | O => raise ValueError
  | S _ => ret (map (fun k => k * step) (seq 0 ((stop + step - 1) / step)))
  end.

(** [l[i:j]] for [0 <= i <= j]. *)
Definition slice {A : Type} (l : list A) (i j : nat) : list A :=
  firstn (j - i) (skipn i l).

(** ElementPath expressions of the scripts. *)
Definition path_IdList_Id : list step :=
  [SelfStep; ChildStep "IdList"; ChildStep "Id"].          (* "./IdList/Id" *)
Definition path_Count : list step := [ChildStep "Count"].  (* "Count" *)
Definition path_PubmedArticle : list step :=
  [SelfStep; ChildStep "PubmedArticle"].                   (* "./PubmedArticle" *)
Definition path_PMID : list step := [SelfStep; DescStep "PMID"].
Definition path_ArticleTitle : list step :=
  [SelfStep; DescStep "ArticleTitle"].
Definition path_AbstractText : list step :=
  [SelfStep; DescStep "Abstract"; ChildStep "AbstractText"].

(** [len(l) >= total] where [total] may be [None]: ordering an [int]
    against [None] is a [TypeError]. *)
Definition len_ge (n : nat) (total : option Z) : M bool :=
  match total with
  | Some z => ret (z <=? Z.of_nat n)%Z
  | None => raise TypeError
  end.

(** ** The DuckDB file *)

(** The file [pubmed_results.db], when it exists, holds a database in
    which the table [publications] exists or not. *)
Section Store.
Variable row : Type.

Record database : Type := mkDatabase { publications : option (list row) }.

(** The state of the working directory: the database file, if any. *)
Definition disk : Type := option database.

Definition os_path_exists (d : disk) : bool := is_not_None d.
Definition os_remove (d : disk) : disk := None.

(** [duckdb.connect(name)] opens the file, creating an empty database
    when there is none. *)
Definition duckdb_connect (d : disk) : database :=
  match d with
  | Some db => db
  | None => mkDatabase None
  end.

(** [CREATE TABLE IF NOT EXISTS publications (...)] *)
Definition create_table_if_not_exists (db : database) : database :=
  match publications db with
  | Some _ => db
  | None => mkDatabase (Some [])
  end.

(** [executemany("INSERT INTO publications ...", rows)] on a database
    whose table exists: the rows are appended. *)
Definition executemany_insert (db : database) (rows : list row) : database :=
  match publications db with
  | Some old => mkDatabase (Some (old ++ rows))
  | None => db
  end.

Definition table_rows (db : database) : list row :=
  match publications db with
  | Some rows => rows
  | None => []
  end.

(** Rows of the table in the file, none when the file or the table is
    missing. *)
Definition disk_rows (d : disk) : list row :=
  match d with
  | Some db => table_rows db
  | None => []
  end.
End Store.
Arguments mkDatabase {row} _.
Arguments publications {row} _.
Arguments os_path_exists {row} _.
Arguments os_remove {row} _.
Arguments duckdb_connect {row} _.
Arguments create_table_if_not_exists {row} _.
Arguments executemany_insert {row} _ _.
Arguments table_rows {row} _.
Arguments disk_rows {row} _.

(** SQL aggregates: [COUNT] counts rows (or non-NULL values) and is 0 on
    no rows; [SUM] over no rows is NULL. *)
Definition sql_count {A : Type} (l : list A) : Z := Z.of_nat (List.length l).

Definition sql_sum (l : list Z) : option Z :=
  match l with
  | [] => None
  | _ :: _ => Some (fold_right Z.add 0%Z l)
  end.

(** The query of both scripts. *)
Definition query : string := "github".

(** ** [src/pubmed.py]: the revised script *)
Module Current.

Record Article : Type := mkArticle {
  pmid : option string;
  title : option string;
  abstract : option string;
  github_link : option string;
  has_github_link : bool
}.

Definition search_pubmed (r : remote) (query : string)
           (retstart retmax : nat) : M (list (option string) * option Z) :=
  response <- requests_get r (Search query retstart retmax) ;;
  if (status_code response =? 200)%Z then
    root <- fromstring (content response) ;;
    let id_list := map text (findall path_IdList_Id root) in
    let count := find path_Count root in
    total_count <- match count with
                   | Some c => n <- py_int (text c) ;; ret (Some n)
                   | None => ret None
                   end ;;
    ret (id_list, total_count)
  else raise (RemoteError ESearch (status_code response)).

(** The body of [for article in root.findall("./PubmedArticle")]. *)
Definition parse_article (article : Element) : M Article :=
  pmid <- dot_text (find path_PMID article) ;;
  title <- dot_text (find path_ArticleTitle article) ;;
  let abstract_element := find path_AbstractText article in
  let abstract := match abstract_element with
                  | Some e => text e
                  | None => None
                  end in
  let github_link := find_github_link article in
  ret (mkArticle pmid title abstract github_link (is_not_None github_link)).

Definition fetch_pubmed_details (r : remote)
           (pubmed_ids : list (option string)) : M (list Article) :=
  match pubmed_ids with
  | [] => ret []
  | _ :: _ =>
      ids <- join_comma pubmed_ids ;;
      response <- requests_get r (Fetch ids) ;;
      if (status_code response =? 200)%Z then
        root <- fromstring (content response) ;;
        for_each parse_article (findall path_PubmedArticle root)
      else raise (RemoteError EFetch (status_code response))
  end.

(** The [while True] loop of [get_all_publications]; one unit of fuel
    per iteration. *)
Fixpoint pager (fuel : nat) (r : remote) (query : string) (batch_size : nat)
         (all_pubmed_ids : list (option string)) (start_index : nat)
         (total_count : option Z) : M (list (option string)) :=
  match fuel with
  | O => out_of_fuel
  | S fuel' =>
      page <- search_pubmed r query start_index batch_size ;;
      let (pubmed_ids, batch_total_count) := page in
      let total_count := match total_count with
                         | None => batch_total_count
                         | Some _ => total_count
                         end in
      let all_pubmed_ids := all_pubmed_ids ++ pubmed_ids in
      reached <- len_ge (List.length all_pubmed_ids) total_count ;;
      if reached || (List.length pubmed_ids <? batch_size)%nat then
        ret all_pubmed_ids
      else
        time_sleep 1 ;;;
        pager fuel' r query batch_size all_pubmed_ids
              (start_index + batch_size) total_count
  end.

(** The [for i in range(0, len(all_pubmed_ids), fetch_size)] loop. *)
Definition fetch_all (r : remote) (fetch_size : nat)
           (all_pubmed_ids : list (option string)) : M (list Article) :=
  indices <- py_range (List.length all_pubmed_ids) fetch_size ;;
  batches <- for_each
               (fun i =>
                  let batch_pubmed_ids :=
                    slice all_pubmed_ids i (i + fetch_size) in
                  publications <- fetch_pubmed_details r batch_pubmed_ids ;;
                  time_sleep 1 ;;;
                  ret publications)
               indices ;;
  ret (List.concat batches).

Definition get_all_publications (fuel : nat) (r : remote) (query : string)
           (batch_size fetch_size : nat) : M (list Article) :=
  all_pubmed_ids <- pager fuel r query batch_size [] 0 None ;;
  fetch_all r fetch_size all_pubmed_ids.

(** A row of the table: (pmid, title, abstract, github_link,
    has_github_link). *)
Definition row : Type := Article.

Record Summary : Type := mkSummary {
  total : Z;
  with_github : option Z;
  without_github : option Z
}.

(** [SELECT COUNT( * ), SUM(CASE WHEN has_github_link THEN 1 ELSE 0 END),
    SUM(CASE WHEN NOT has_github_link THEN 1 ELSE 0 END)
    FROM publications] *)
Definition summary_query (db : database row) : Summary :=
  let rows := table_rows db in
  mkSummary
    (sql_count rows)
    (sql_sum (map (fun p => if has_github_link p then 1 else 0)%Z rows))
    (sql_sum (map (fun p => if negb (has_github_link p) then 1 else 0)%Z rows)).

(** The statements after [get_all_publications]: remove the file,
    connect, create the table, insert, query, close. *)
Definition persist (publications : list Article) (d : disk row)
  : Summary * disk row :=
  let d := if os_path_exists d then os_remove d else d in
  let con := duckdb_connect d in
  let con := create_table_if_not_exists con in
  let con := match publications with
             | _ :: _ => executemany_insert con publications
             | [] => con
             end in
  (summary_query con, Some con).

(** The whole script: the outcome with the trace of remote calls, and
    the database file it leaves. *)
Definition main (fuel : nat) (r : remote) (d : disk row)
  : M Summary * disk row :=
  match get_all_publications fuel r query 100 100 with
  | (Ok publications, t) =>
      let (result, d') := persist publications d in ((Ok result, t), d')
  | (Raise e, t) => ((Raise e, t), d)
  | (OutOfFuel, t) => ((OutOfFuel, t), d)
  end.

End Current.

(** ** [pubmed.py]: the first script *)
Module Legacy.

Record Article : Type := mkArticle {
  pmid : option string;
  title : option string;
  abstract : option string;
  github_link : option string
}.

Definition search_pubmed (r : remote) (query : string)
           (retstart retmax : nat) : M (list (option string)) :=
  response <- requests_get r (Search query retstart retmax) ;;
  if (status_code response =? 200)%Z then
    root <- fromstring (content response) ;;
    let id_list := map text (findall path_IdList_Id root) in
    ret id_list
  else raise (RemoteError ESearch (status_code response)).

Definition parse_article (article : Element) : M Article :=
  pmid <- dot_text (find path_PMID article) ;;
  title <- dot_text (find path_ArticleTitle article) ;;
  let abstract_element := find path_AbstractText article in
  let abstract := match abstract_element with
                  | Some e => text e
                  | None => None
                  end in
  let github_link := find_github_link article in
  ret (mkArticle pmid title abstract github_link).

Definition fetch_pubmed_details (r : remote)
           (pubmed_ids : list (option string)) : M (list Article) :=
  match pubmed_ids with
  | [] => ret []
  | _ :: _ =>
      ids <- join_comma pubmed_ids ;;
      response <- requests_get r (Fetch ids) ;;
      if (status_code response =? 200)%Z then
        root <- fromstring (content response) ;;
        for_each parse_article (findall path_PubmedArticle root)
      else raise (RemoteError EFetch (status_code response))
  end.

Fixpoint pager (fuel : nat) (r : remote) (query : string) (batch_size : nat)
         (all_pubmed_ids : list (option string)) (start_index : nat)
  : M (list (option string)) :=
  match fuel with
  | O => out_of_fuel
  | S fuel' =>
      pubmed_ids <- search_pubmed r query start_index batch_size ;;
      let all_pubmed_ids := all_pubmed_ids ++ pubmed_ids in
      if (List.length pubmed_ids <? batch_size)%nat then
        ret all_pubmed_ids
      else
        time_sleep 1 ;;;
        pager fuel' r query batch_size all_pubmed_ids
              (start_index + batch_size)
  end.

Definition fetch_all (r : remote) (fetch_size : nat)
           (all_pubmed_ids : list (option string)) : M (list Article) :=
  indices <- py_range (List.length all_pubmed_ids) fetch_size ;;
  batches <- for_each
               (fun i =>
                  let batch_pubmed_ids :=
                    slice all_pubmed_ids i (i + fetch_size) in
                  publications <- fetch_pubmed_details r batch_pubmed_ids ;;
                  time_sleep 1 ;;;
                  ret publications)
               indices ;;
  ret (List.concat batches).

Definition get_all_publications (fuel : nat) (r : remote) (query : string)
           (batch_size fetch_size : nat) : M (list Article) :=
  all_pubmed_ids <- pager fuel r query batch_size [] 0 ;;
  fetch_all r fetch_size all_pubmed_ids.

(** A row of the table: (pmid, title, abstract, github_link). *)
Definition row : Type := Article.

Record Summary : Type := mkSummary {
  total : Z;
  with_github : Z
}.

(** [SELECT COUNT( * ), COUNT(github_link) FROM publications] *)
Definition summary_query (db : database row) : Summary :=
  let rows := table_rows db in
  mkSummary
    (sql_count rows)
    (sql_count (filter (fun p => is_not_None (github_link p)) rows)).

(** Connect (no removal of an existing file), create the table if it
    is missing, insert, query, close. *)
Definition persist (publications : list Article) (d : disk row)
  : Summary * disk row :=
  let con := duckdb_connect d in
  let con := create_table_if_not_exists con in
  let con := match publications with
             | _ :: _ => executemany_insert con publications
             | [] => con
             end in
  (summary_query con, Some con).

Definition main (fuel : nat) (r : remote) (d : disk row)
  : M Summary * disk row :=
  match get_all_publications fuel r query 10000 100 with
  | (Ok publications, t) =>
      let (result, d') := persist publications d in ((Ok result, t), d')
  | (Raise e, t) => ((Raise e, t), d)
  | (OutOfFuel, t) => ((OutOfFuel, t), d)
  end.

End Legacy.

(** ** Documents and remote services for the scenarios *)

Definition leaf (t : string) (x : option string) : Element := Elem t x [] None.

(** An [eSearchResult] document with an optional [Count] and the ids of
    one page. *)
Definition eSearchResult (count : option string) (ids : list string) : Element :=
  Elem "eSearchResult" None
       (match count with
        | Some c => [leaf "Count" (Some c)]
        | None => []
        end ++ [Elem "IdList" None (map (fun i => leaf "Id" (Some i)) ids) None])
       None.

(** A [PubmedArticle] with the given id, optional title element and
    the given children of its [Abstract] (no [Abstract] element for
    [None]). *)
Definition PubmedArticle (id : string) (title_element : option Element)
           (abstract_children : option (list Element)) : Element :=
  Elem "PubmedArticle" None
       [Elem "MedlineCitation" None
             [leaf "PMID" (Some id);
              Elem "Article" None
                   (match title_element with Some t => [t] | None => [] end ++
                    match abstract_children with
                    | Some cs => [Elem "Abstract" None cs None]
                    | None => []
                    end)
                   None]
             None]
       None.

Definition PubmedArticleSet (articles : list Element) : Element :=
  Elem "PubmedArticleSet" None articles None.

(** A service that holds [records] matching ids, reports [count] on
    every search page and answers a page request with the corresponding
    window; every fetch is answered with [fetched]. *)
Definition paging_remote (count : option string) (records : list string)
           (fetched : Response) : remote :=
  fun rq =>
    match rq with
    | Search _ retstart retmax =>
        mkResponse 200
          (Some (eSearchResult count (slice records retstart (retstart + retmax))))
    | Fetch _ => fetched
    end.


(** ** What the pattern denotes *)

Fixpoint all_chars (p : ascii -> bool) (s : string) : bool :=
  match s with
  | EmptyString => true
  | String c s' => p c && all_chars p s'
  end.

(** The words of a regular expression. *)
Inductive lang : regex -> string -> Prop :=
| lang_lit l : lang (Lit l) l
| lang_seq r1 r2 a b :
    lang r1 a -> lang r2 b -> lang (Seq r1 r2) (a ++ b)%string
| lang_opt_skip r : lang (Opt r) ""
| lang_opt_take r a : lang r a -> lang (Opt r) a
| lang_plus p a :
    a <> "" -> all_chars p a = true -> lang (PlusClass p) a.

(** A non-empty run of characters other than whitespace and [/]. *)
Definition run (s : string) : Prop :=
  s <> "" /\ all_chars not_space_slash s = true.

(** The text after a run: nothing, or a character that ends the run. *)
Definition ends_run (p : ascii -> bool) (rest : string) : Prop :=
  match rest with
  | EmptyString => True
  | String c _ => p c = false
  end.

(** [http(s)://[www.]github.com/<owner>/<repo>], in lower case. *)
Definition github_url (secure www : bool) (owner repo : string) : string :=
  ("http" ++ (if secure then "s" else "") ++ "://" ++
   (if www then "www." else "") ++ "github.com/" ++ owner ++ "/" ++ repo)%string.

(** No match of [r] starts inside [pre] when [pre] is followed by
    [rest]. *)
Definition no_match_inside (r : regex) (pre rest : string) : Prop :=
  forall p1 c p2,
    pre = (p1 ++ String c p2)%string ->
    re_match r (String c p2 ++ rest)%string = None.

(** ** Notions used in the statements *)

(** *** Link extraction *)

(** No text of the element matches the pattern. *)
Definition no_link_in_text (e : Element) : Prop :=
  forall s, text e = Some s -> re_search github_regex s = None.

(** The extraction in the words of the specification: the first match
    in any text of the sub-document, in document order, the texts that
    follow child elements included. *)
Fixpoint first_match (texts : list string) : option string :=
  match texts with
  | [] => None
  | s :: rest =>
      match re_search github_regex s with
      | Some m => Some m
      | None => first_match rest
      end
  end.

Definition spec_find_link (article : Element) : option string :=
  first_match (itertext article).

(** The leading text of the first element a path selects. *)
Definition first_leading_text (path : list step) (article : Element)
  : option string :=
  match findall path article with
  | first :: _ => text first
  | [] => None
  end.

(** *** Services and traces *)

(** Every request in the trace of [m] was answered by [r], and an
    answer other than 200 is the last event of the trace and makes the
    outcome the corresponding [RemoteError]. *)
Definition fail_fast {A : Type} (r : remote) (m : M A) : Prop :=
  forall i rq st,
    nth_error (snd m) i = Some (Get rq st) ->
    st = status_code (r rq) /\
    (st <> 200%Z ->
     fst m = Raise (RemoteError (endpoint_of rq) st) /\
     S i = List.length (snd m)).

(** The service answers every page request of size [b] for [q] with the
    corresponding window of [records]; the count on its first page is
    [T] (later pages may carry any count, or none). *)
Definition serves_pages (r : remote) (q : string) (b : nat)
           (records : list string) (T : Z) : Prop :=
  forall start,
    exists c,
      fst (Current.search_pubmed r q start b)
      = Ok (map Some (slice records start (start + b)), c)
      /\ (start = 0 -> c = Some T).

(** The service answers every page request of size [b] for [q] with the
    corresponding window of [records], whatever it says about the
    count. *)
Definition serves_ids (r : remote) (q : string) (b : nat)
           (records : list string) : Prop :=
  forall start,
    fst (Legacy.search_pubmed r q start b)
    = Ok (map Some (slice records start (start + b))).

(** Number of whole pages of size [b] needed to reach the count [T]; at
    least one page is always requested. *)
Definition pages_for (b : nat) (T : Z) : nat :=
  Nat.max 1 (Z.to_nat ((T + Z.of_nat b - 1) / Z.of_nat b)).

(** The trace of [k] successive page requests of size [b] from offset
    [start], all answered with 200, with the sleep between two of
    them. *)
Fixpoint page_requests (q : string) (b start k : nat) : list event :=
  match k with
  | O => []
  | S k' =>
      Get (Search q start b) 200%Z ::
      match k' with
      | O => []
      | S _ => Sleep 1 :: page_requests q b (start + b) k'
      end
  end.

(** *** Rows of the table *)

(** The flag of a record says whether its link is present. *)
Definition link_flag_consistent (a : Current.Article) : Prop :=
  Current.has_github_link a = true <-> Current.github_link a <> None.

(** Number of rows whose link is present. *)
Definition with_link (rows : list Current.Article) : Z :=
  Z.of_nat (List.length
              (filter (fun a => is_not_None (Current.github_link a)) rows)).

(** *** Records, services and files of the scenarios *)

(** A record with a link in its abstract, one without abstract, one
    without title. *)
Definition tool_article : Element :=
  PubmedArticle "1" (Some (leaf "ArticleTitle" (Some "A tool")))
    (Some [leaf "AbstractText"
                (Some "see https://github.com/acme/tool for code")]).

Definition plain_article : Element :=
  PubmedArticle "2" (Some (leaf "ArticleTitle" (Some "No code"))) None.

Definition untitled_article : Element :=
  PubmedArticle "3" None (Some [leaf "AbstractText" (Some "No title")]).

(** A record whose abstract holds inline markup, the URL standing after
    it. *)
Definition inline_markup_article : Element :=
  PubmedArticle "4" (Some (leaf "ArticleTitle" (Some "A pipeline")))
    (Some [Elem "AbstractText" (Some "The code of ")
                [Elem "i" (Some "our pipeline") []
                      (Some " is at https://github.com/acme/tool")]
                None]).

(** A record whose abstract starts with inline markup. *)
Definition markup_first_abstract : Element :=
  Elem "AbstractText" None
       [Elem "i" (Some "BRCA1") [] (Some " variants are scored by the tool.")]
       None.

Definition markup_first_article : Element :=
  PubmedArticle "5" (Some (leaf "ArticleTitle" (Some "Variant scoring")))
    (Some [markup_first_abstract]).

(** An abstract in two sections, the first with inline markup. *)
Definition two_section_article : Element :=
  PubmedArticle "6" (Some (leaf "ArticleTitle" (Some "Two sections")))
    (Some [Elem "AbstractText" (Some "We present ")
                [Elem "b" (Some "tool") [] (Some ", a scorer.")] None;
           leaf "AbstractText" (Some "It is fast.")]).

Definition fetched (articles : list Element) : Response :=
  mkResponse 200 (Some (PubmedArticleSet articles)).

(** The service of the scenarios: two matching records, one of them
    with a link. *)
Definition scenario_remote : remote :=
  paging_remote (Some "2") ["1"; "2"] (fetched [tool_article; plain_article]).

(** The service whose search has no result. *)
Definition empty_remote : remote := paging_remote (Some "0") [] (fetched []).

(** A database file left by an earlier run. *)
Definition earlier_disk : disk Current.row :=
  Some (mkDatabase
          (Some [Current.mkArticle (Some "9") (Some "Earlier") None None false])).

(** *** Batches and traces of whole runs *)

(** The batches of the fetch loop: the windows [l[i:i+fetch_size]] at
    the indices of [range(0, len(l), fetch_size)]. *)
Definition windows {A : Type} (l : list A) (fetch_size : nat) : list (list A) :=
  map (fun i => slice l i (i + fetch_size))
      (map (fun k => k * fetch_size)
           (seq 0 ((List.length l + fetch_size - 1) / fetch_size))).

(** Page requests of size [b] from offset [start], answered with the
    statuses [sts], one sleep between two of them; a last sleep when
    the trace stops for lack of fuel. *)
Fixpoint paced_requests (q : string) (b start : nat) (sts : list Z)
         (cut : bool) : list event :=
  match sts with
  | [] => []
  | st :: rest =>
      Get (Search q start b) st ::
      match rest with
      | [] => if cut then [Sleep 1] else []
      | _ :: _ => Sleep 1 :: paced_requests q b (start + b) rest cut
      end
  end.

Definition is_out_of_fuel {A : Type} (o : outcome A) : bool :=
  match o with OutOfFuel => true | _ => false end.

(** The requests of the fetch loop on the batches [ws], all answered
    with 200, each followed by its sleep. *)
Definition fetch_requests (ws : list (list string)) : list event :=
  flat_map (fun w => [Get (Fetch (String.concat "," w)) 200%Z; Sleep 1]) ws.

(** A service that answers every search with the same page, whatever
    the offset. *)
Definition repeating_remote (ids : list string) : remote :=
  fun rq =>
    match rq with
    | Search _ _ _ => mkResponse 200 (Some (eSearchResult None ids))
    | Fetch _ => mkResponse 200 (Some (PubmedArticleSet []))
    end.

(** The record documents of [scenario_remote] by identifier, and the
    records they are parsed to. *)
Definition scenario_doc (id : string) : Element :=
  if String.eqb id "1" then tool_article else plain_article.

Definition scenario_record (id : string) : Current.Article :=
  if String.eqb id "1" then
    Current.mkArticle (Some "1") (Some "A tool")
                      (Some "see https://github.com/acme/tool for code")
                      (Some "https://github.com/acme/tool") true
  else
    Current.mkArticle (Some "2") (Some "No code") None None false.

(** The trace of a pager loop started at offset [start] with [fuel]:
    page requests at the offsets [start], [start + b], ... each for [b]
    identifiers and answered by [r], with exactly one sleep between two
    of them, every answer but the last being 200. *)
Definition paced {A : Type} (r : remote) (q : string) (b start fuel : nat)
           (m : M A) : Prop :=
  exists sts,
    List.length sts <= fuel
    /\ snd m = paced_requests q b start sts (is_out_of_fuel (fst m))
    /\ Forall (fun st => st = 200%Z) (removelast sts)
    /\ (forall k st, nth_error sts k = Some st ->
                     st = status_code (r (Search q (start + k * b) b))).

(** A record whose abstract ends with the URL and a full stop. *)
Definition punctuated_article : Element :=
  PubmedArticle "7" (Some (leaf "ArticleTitle" (Some "A tool")))
    (Some [leaf "AbstractText"
                (Some "The code is at https://github.com/acme/tool.")]).

(** A service whose only search page holds an [Id] element without
    text. *)
Definition blank_id_remote : remote :=
  fun rq =>
    match rq with
    | Search _ _ _ =>
        mkResponse 200
          (Some (Elem "eSearchResult" None
                      [leaf "Count" (Some "1");
                       Elem "IdList" None [leaf "Id" None] None]
                      None))
    | Fetch _ => fetched [tool_article]
    end.

(** A fetch response with a book entry beside one article. *)
Definition book_remote : remote :=
  paging_remote (Some "2") ["1"; "8"]
    (mkResponse 200
       (Some (PubmedArticleSet
                [Elem "PubmedBookArticle" None
                      [leaf "PMID" (Some "8");
                       leaf "ArticleTitle" (Some "A book chapter")]
                      None;
                 tool_article]))).

(** Number of rows of the first script's table whose link is present. *)
Definition legacy_with_link (rows : list Legacy.Article) : Z :=
  Z.of_nat (List.length
              (filter (fun a => is_not_None (Legacy.github_link a)) rows)).

(** * Properties *)

(** ** Strings *)

Lemma append_assoc (a b c : string) :
  ((a ++ b) ++ c = a ++ (b ++ c))%string.
Proof. induction a as [|x a IH]; simpl; [reflexivity | now rewrite IH]. Qed.

Lemma append_nil_r (a : string) : (a ++ "")%string = a.
Proof. induction a as [|x a IH]; simpl; [reflexivity | now rewrite IH]. Qed.

Lemma length_append (a b : string) :
  String.length (a ++ b) = String.length a + String.length b.
Proof. induction a as [|x a IH]; simpl; [reflexivity | now rewrite IH]. Qed.

Lemma take_append (a b : string) : take (String.length a) (a ++ b) = a.
Proof. induction a as [|x a IH]; simpl; [now destruct b | now rewrite IH]. Qed.

Lemma strip_prefix_inv (p s rest : string) :
  strip_prefix p s = Some rest -> s = (p ++ rest)%string.
Proof.
  revert s; induction p as [|a p IH]; intros s H; simpl in *.
  - congruence.
  - destruct s as [|b s]; [discriminate|].
    destruct (Ascii.eqb a b) eqn:E; [|discriminate].
    apply Ascii.eqb_eq in E; subst b. now rewrite (IH _ H).
Qed.

Lemma strip_prefix_append (p rest : string) :
  strip_prefix p (p ++ rest) = Some rest.
Proof.
  induction p as [|a p IH]; simpl; [reflexivity|].
  now rewrite Ascii.eqb_refl.
Qed.

(** ** The matcher *)

Lemma plus_class_sound {A : Type} (p : ascii -> bool) (s : string)
      (k : string -> option A) (x : A) :
  plus_class p s k = Some x ->
  exists m rest, s = (m ++ rest)%string /\ lang (PlusClass p) m /\ k rest = Some x.
Proof.
  revert x; induction s as [|c s IH]; intros x H; simpl in H; [discriminate|].
  destruct (p c) eqn:Pc; [|discriminate].
  destruct (plus_class p s k) as [y|] eqn:E.
  - inversion H; subst y; clear H.
    destruct (IH x eq_refl) as (m & rest & -> & Hm & Hk).
    exists (String c m), rest. repeat split; trivial.
    inversion Hm; subst. constructor; [discriminate|]. simpl. now rewrite Pc.
  - exists (String c ""), s. repeat split; trivial.
    constructor; [discriminate|]. simpl. now rewrite Pc.
Qed.

(** Whatever [matchk] returns was produced by the continuation on the
    text left after a word of the expression. *)
Lemma matchk_sound {A : Type} (r : regex) :
  forall (s : string) (k : string -> option A) (x : A),
    matchk r s k = Some x ->
    exists m rest, s = (m ++ rest)%string /\ lang r m /\ k rest = Some x.
Proof.
  induction r as [l | r1 IH1 r2 IH2 | r IH | p]; intros s k x H; simpl in H.
  - destruct (strip_prefix l s) as [s'|] eqn:E; [|discriminate].
    exists l, s'. repeat split; trivial.
    + now apply strip_prefix_inv.
    + constructor.
  - destruct (IH1 _ _ _ H) as (a & s1 & -> & Ha & H1).
    destruct (IH2 _ _ _ H1) as (b & s2 & -> & Hb & H2).
    exists (a ++ b)%string, s2. repeat split; trivial.
    + now rewrite append_assoc.
    + now constructor.
  - destruct (matchk r s k) as [y|] eqn:E.
    + inversion H; subst y.
      destruct (IH _ _ _ E) as (a & s1 & -> & Ha & H1).
      exists a, s1. repeat split; trivial. now constructor.
    + exists "", s. repeat split; trivial. constructor.
  - now apply plus_class_sound.
Qed.

Lemma re_match_sound (r : regex) (s m : string) :
  re_match r s = Some m ->
  exists rest, s = (m ++ rest)%string /\ lang r m.
Proof.
  unfold re_match. intros H.
  destruct (matchk r s (fun rest => Some rest)) as [rest|] eqn:E; [|discriminate].
  destruct (matchk_sound _ _ _ _ E) as (w & rest' & -> & Hw & Hk).
  inversion Hk; subst rest'. exists rest. split; [|].
  - inversion H. rewrite length_append.
    replace (String.length w + String.length rest - String.length rest)
      with (String.length w) by lia.
    now rewrite take_append.
  - inversion H. rewrite length_append.
    replace (String.length w + String.length rest - String.length rest)
      with (String.length w) by lia.
    now rewrite take_append.
Qed.

Lemma re_match_intro (r : regex) (m rest : string) :
  matchk r (m ++ rest) (fun x => Some x) = Some rest ->
  re_match r (m ++ rest) = Some m.
Proof.
  unfold re_match. intros ->. rewrite length_append.
  replace (String.length m + String.length rest - String.length rest)
    with (String.length m) by lia.
  now rewrite take_append.
Qed.

(** [re.search] returns the match at the leftmost position that has
    one. *)
Lemma re_search_leftmost (r : regex) (pre rest m : string) :
  no_match_inside r pre rest ->
  re_match r rest = Some m ->
  re_search r (pre ++ rest) = Some m.
Proof.
  induction pre as [|c pre IH]; intros Hno Hm.
  - simpl. destruct rest; simpl; now rewrite Hm.
  - pose proof (Hno "" c pre eq_refl) as H0. simpl in H0 |- *. rewrite H0.
    apply IH; trivial.
    intros p1 d p2 ->. apply (Hno (String c p1) d p2). reflexivity.
Qed.

Lemma re_search_sound (r : regex) (s m : string) :
  re_search r s = Some m ->
  exists pre post,
    s = (pre ++ m ++ post)%string /\ lang r m /\
    no_match_inside r pre (m ++ post).
Proof.
  induction s as [|c s IH]; intros H.
  - simpl in H. destruct (re_match r "") as [w|] eqn:E; [|discriminate].
    inversion H; subst w. destruct (re_match_sound _ _ _ E) as (rest & Hs & Hl).
    exists "", rest. repeat split; trivial.
    intros p1 d p2 Hp. destruct p1; discriminate.
  - simpl in H. destruct (re_match r (String c s)) as [w|] eqn:E.
    + inversion H; subst w. destruct (re_match_sound _ _ _ E) as (rest & Hs & Hl).
      exists "", rest. repeat split; trivial.
      intros p1 d p2 Hp. destruct p1; discriminate.
    + destruct (IH H) as (pre & post & -> & Hl & Hno).
      exists (String c pre), post. repeat split; trivial.
      intros p1 d p2 Hp. destruct p1 as [|e p1]; simpl in Hp.
      * inversion Hp; subst. exact E.
      * inversion Hp; subst. now apply (Hno p1 d p2).
Qed.

(** A greedy [+] takes the whole run when the continuation accepts what
    follows it. *)
Lemma plus_class_run {A : Type} (p : ascii -> bool) (w rest : string)
      (k : string -> option A) (x : A) :
  w <> "" -> all_chars p w = true -> ends_run p rest -> k rest = Some x ->
  plus_class p (w ++ rest) k = Some x.
Proof.
  induction w as [|c w IH]; intros Hne Hall Hend Hk; [congruence|].
  simpl in *. apply andb_prop in Hall as [Pc Hall]. rewrite Pc.
  destruct w as [|d w].
  - simpl. destruct rest as [|e rest]; simpl; [exact Hk|].
    simpl in Hend. now rewrite Hend.
  - rewrite IH; trivial. discriminate.
Qed.

(** ** The GitHub pattern *)

Lemma slash_ends_run (s : string) : ends_run not_space_slash (String "/" s).
Proof. reflexivity. Qed.

Lemma github_url_append (secure www : bool) (owner repo post : string) :
  (github_url secure www owner repo ++ post)%string =
  ("http" ++ (if secure then "s" else "") ++ "://" ++
   (if www then "www." else "") ++ "github.com/" ++
   owner ++ "/" ++ repo ++ post)%string.
Proof.
  unfold github_url. now rewrite !append_assoc.
Qed.

(** The literal part of the pattern, with any continuation. *)
Lemma github_prefix_match {A : Type} (secure www : bool) (rest : string)
      (k : string -> option A) (x : A) :
  k rest = Some x ->
  matchk (Lit "http")
         ("http" ++ (if secure then "s" else "") ++ "://" ++
          (if www then "www." else "") ++ "github.com/" ++ rest)
         (fun s1 => matchk (Opt (Lit "s")) s1
         (fun s2 => matchk (Lit "://") s2
         (fun s3 => matchk (Opt (Lit "www.")) s3
         (fun s4 => matchk (Lit "github.com/") s4 k)))) = Some x.
Proof.
  intros Hk. destruct secure, www; simpl; now rewrite Hk.
Qed.

(** Every URL of the lower-case form is matched whole when what follows
    it ends the repository run. *)
Lemma github_match (secure www : bool) (owner repo post : string) :
  run owner -> run repo -> ends_run not_space_slash post ->
  re_match github_regex (github_url secure www owner repo ++ post)
  = Some (github_url secure www owner repo).
Proof.
  intros [Ho1 Ho2] [Hr1 Hr2] Hpost.
  apply re_match_intro. rewrite github_url_append.
  exact (github_prefix_match secure www (owner ++ "/" ++ repo ++ post)
           (fun s' => matchk (Seq (PlusClass not_space_slash)
                                  (Seq (Lit "/") (PlusClass not_space_slash)))
                             s' (fun x => Some x))
           post
           (plus_class_run not_space_slash owner ("/" ++ repo ++ post) _ post
              Ho1 Ho2 (slash_ends_run _)
              (plus_class_run not_space_slash repo post _ post
                 Hr1 Hr2 Hpost eq_refl))).
Qed.

(** Conversely, a word of the pattern has the lower-case form. *)
Lemma github_lang_inv (m : string) :
  lang github_regex m ->
  exists secure www owner repo,
    m = github_url secure www owner repo /\ run owner /\ run repo.
Proof.
  unfold github_regex. intros H.
  repeat match goal with
         | H : lang (Seq _ _) _ |- _ => inversion H; subst; clear H
         | H : lang (Lit _) _ |- _ => inversion H; subst; clear H
         | H : lang (PlusClass _) _ |- _ => inversion H; subst; clear H
         end.
  match goal with
  | Hs : lang (Opt (Lit "s")) ?a, Hw : lang (Opt (Lit "www.")) ?b |- _ =>
      assert (Ea : a = "" \/ a = "s")
        by (inversion Hs; subst; [now left | right;
            match goal with H : lang (Lit _) _ |- _ => now inversion H end]);
      assert (Eb : b = "" \/ b = "www.")
        by (inversion Hw; subst; [now left | right;
            match goal with H : lang (Lit _) _ |- _ => now inversion H end]);
      clear Hs Hw
  end.
  match goal with
  | |- exists _ _ owner repo, (_ ++ _ ++ _ ++ _ ++ _ ++ ?o ++ _ ++ ?p)%string = _ /\ _ =>
      destruct Ea as [-> | ->], Eb as [-> | ->];
      [ exists false, false, o, p | exists false, true, o, p
      | exists true, false, o, p | exists true, true, o, p ];
      (split; [reflexivity | split; split; assumption])
  end.
Qed.

(** ** [find_github_link] *)

Lemma re_search_empty : re_search github_regex "" = None.
Proof. reflexivity. Qed.

Lemma first_link_cons (e : Element) (l : list Element) :
  first_link (e :: l) =
  match text e with
  | Some s => match re_search github_regex s with
              | Some m => Some m
              | None => first_link l
              end
  | None => first_link l
  end.
Proof.
  simpl. destruct (text e) as [[|c s]|]; simpl; trivial.
Qed.

Lemma first_link_none (l : list Element) :
  first_link l = None <-> Forall no_link_in_text l.
Proof.
  induction l as [|e l IH]; [split; trivial|].
  rewrite first_link_cons. split.
  - intros H. destruct (text e) as [s|] eqn:E.
    + destruct (re_search github_regex s) eqn:R; [discriminate|].
      constructor; [|now apply IH].
      intros s' Hs'. rewrite E in Hs'. now inversion Hs'; subst.
    + constructor; [|now apply IH]. intros s' Hs'. congruence.
  - intros H. inversion H as [|? ? He Hl]; subst.
    destruct (text e) as [s|] eqn:E; [|now apply IH].
    rewrite (He s E). now apply IH.
Qed.

Lemma first_link_some (l : list Element) (u : string) :
  first_link l = Some u <->
  exists before e after s,
    l = before ++ e :: after /\ text e = Some s /\
    re_search github_regex s = Some u /\ Forall no_link_in_text before.
Proof.
  induction l as [|e l IH].
  - split; [discriminate|].
    intros (before & e & after & s & H & _). now destruct before.
  - rewrite first_link_cons. split.
    + intros H. destruct (text e) as [s|] eqn:E.
      * destruct (re_search github_regex s) as [m|] eqn:R.
        -- inversion H; subst m. exists [], e, l, s. now repeat split.
        -- apply IH in H as (before & e' & after & s' & -> & Ht & Hr & Hb).
           exists (e :: before), e', after, s'. repeat split; trivial.
           constructor; trivial. intros x Hx. congruence.
      * apply IH in H as (before & e' & after & s' & -> & Ht & Hr & Hb).
        exists (e :: before), e', after, s'. repeat split; trivial.
        constructor; trivial. intros x Hx. congruence.
    + intros (before & e' & after & s & Hl & Ht & Hr & Hb).
      destruct before as [|b before]; simpl in Hl; inversion Hl; subst.
      * now rewrite Ht, Hr.
      * inversion Hb as [|? ? Hb1 Hb2]; subst.
        assert (first_link (before ++ e' :: after) = Some u) as Hrec
            by (apply IH; exists before, e', after, s; now repeat split).
        destruct (text b) as [x|] eqn:E; trivial.
        now rewrite (Hb1 x E).
Qed.

(** ** The monad *)

Lemma bind_Ok_inv {A B : Type} (m : M A) (f : A -> M B) (b : B) (t : list event) :
  bind m f = (Ok b, t) ->
  exists a t1 t2, m = (Ok a, t1) /\ f a = (Ok b, t2) /\ t = t1 ++ t2.
Proof.
  destruct m as [[a|e|] t1]; simpl; try discriminate.
  destruct (f a) as [o t2] eqn:E. intros H; inversion H; subst.
  now exists a, t1, t2.
Qed.

Lemma bind_fst_Ok_inv {A B : Type} (m : M A) (f : A -> M B) (b : B) :
  fst (bind m f) = Ok b ->
  exists a, fst m = Ok a /\ fst (f a) = Ok b.
Proof.
  destruct m as [[a|e|] t1]; simpl; try discriminate.
  destruct (f a) as [o t2] eqn:E. simpl. intros ->.
  exists a. now rewrite E.
Qed.

Lemma bind_Ok {A B : Type} (m : M A) (f : A -> M B) (a : A) (t : list event) :
  m = (Ok a, t) -> bind m f = (fst (f a), t ++ snd (f a)).
Proof. intros ->. simpl. now destruct (f a). Qed.

Lemma bind_Raise {A B : Type} (m : M A) (f : A -> M B) (e : error) (t : list event) :
  m = (Raise e, t) -> bind m f = (Raise e, t).
Proof. now intros ->. Qed.

Lemma bind_ret {A B : Type} (a : A) (f : A -> M B) : bind (ret a) f = f a.
Proof. unfold bind, ret. now destruct (f a). Qed.

Lemma for_each_Forall {A B : Type} (f : A -> M B) (P : B -> Prop) (l : list A) :
  (forall x y, In x l -> fst (f x) = Ok y -> P y) ->
  forall ys, fst (for_each f l) = Ok ys -> Forall P ys.
Proof.
  induction l as [|x l IH]; intros Hf ys H; simpl in H.
  - inversion H. constructor.
  - apply bind_fst_Ok_inv in H as (y & Hy & H).
    apply bind_fst_Ok_inv in H as (ys' & Hys & H).
    inversion H; subst. constructor.
    + apply (Hf x); [now left | trivial].
    + apply IH; trivial. intros x' y' Hin. apply Hf. now right.
Qed.

(** ** Failing requests end the computation *)

Lemma fail_fast_pure {A : Type} (r : remote) (o : outcome A) :
  fail_fast r (o, []).
Proof. intros [|i] rq st H; discriminate. Qed.

Lemma fail_fast_sleep (r : remote) (n : nat) : fail_fast r (time_sleep n).
Proof. intros [|[|i]] rq st H; discriminate. Qed.

Lemma fail_fast_bind {A B : Type} (r : remote) (m : M A) (f : A -> M B) :
  fail_fast r m -> (forall a, fail_fast r (f a)) -> fail_fast r (bind m f).
Proof.
  intros Hm Hf. destruct m as [[a|e|] t]; simpl.
  2,3: intros i rq st H; destruct (Hm i rq st H) as [Hst Hbad];
    split; trivial; intros Hne; destruct (Hbad Hne) as [Ho Hlen];
    simpl in Ho; inversion Ho; subst; now split.
  specialize (Hf a). destruct (f a) as [o t'] eqn:E.
  intros i rq st H. simpl in H |- *.
  destruct (Nat.lt_ge_cases i (List.length t)) as [Hlt|Hge].
  - rewrite nth_error_app1 in H by trivial.
    destruct (Hm i rq st H) as [Hst Hbad]. split; trivial.
    intros Hne. destruct (Hbad Hne) as [Habs _]. discriminate.
  - rewrite nth_error_app2 in H by trivial.
    destruct (Hf _ rq st H) as [Hst Hbad]. split; trivial.
    intros Hne. destruct (Hbad Hne) as [Ho Hlen]. simpl in Ho, Hlen.
    split; trivial. rewrite length_app. lia.
Qed.

(** The pattern of both remote calls: GET, then continue on 200 and
    raise otherwise. *)
Lemma fail_fast_get {A : Type} (r : remote) (rq : request) (k : Response -> M A) :
  (forall resp, fail_fast r (k resp)) ->
  fail_fast r
    (response <- requests_get r rq ;;
     if (status_code response =? 200)%Z then k response
     else raise (RemoteError (endpoint_of rq) (status_code response))).
Proof.
  intros Hk. unfold requests_get, bind.
  destruct (status_code (r rq) =? 200)%Z eqn:E.
  - specialize (Hk (r rq)). destruct (k (r rq)) as [o t] eqn:Ek.
    intros [|i] rq' st H; simpl in H.
    + inversion H; subst. split; trivial. apply Z.eqb_eq in E. congruence.
    + destruct (Hk i rq' st H) as [Hst Hbad]. split; trivial.
      intros Hne. destruct (Hbad Hne) as [Ho Hlen]. simpl in *.
      split; trivial. now rewrite Hlen.
  - intros [|[|i]] rq' st H; simpl in H; try discriminate.
    inversion H; subst. split; trivial. now intros _.
Qed.

Lemma fail_fast_for_each {A B : Type} (r : remote) (f : A -> M B) (l : list A) :
  (forall x, fail_fast r (f x)) -> fail_fast r (for_each f l).
Proof.
  intros Hf. induction l as [|x l IH]; simpl.
  - apply fail_fast_pure.
  - apply fail_fast_bind; trivial. intros y.
    apply fail_fast_bind; trivial. intros ys. apply fail_fast_pure.
Qed.

Lemma fail_fast_py_int (r : remote) (x : option string) : fail_fast r (py_int x).
Proof.
  destruct x as [s|]; simpl; [|apply fail_fast_pure].
  destruct (int_of_string s); apply fail_fast_pure.
Qed.

Lemma fail_fast_dot_text (r : remote) (x : option Element) :
  fail_fast r (dot_text x).
Proof. destruct x; apply fail_fast_pure. Qed.

Lemma fail_fast_fromstring (r : remote) (x : option Element) :
  fail_fast r (fromstring x).
Proof. destruct x; apply fail_fast_pure. Qed.

Lemma fail_fast_join_comma (r : remote) (ids : list (option string)) :
  fail_fast r (join_comma ids).
Proof.
  induction ids as [|[x|] ids IH]; simpl; try apply fail_fast_pure.
  destruct ids as [|y ids]; [apply fail_fast_pure|].
  apply fail_fast_bind; trivial. intros s. apply fail_fast_pure.
Qed.

Lemma fail_fast_len_ge (r : remote) (n : nat) (t : option Z) :
  fail_fast r (len_ge n t).
Proof. destruct t; apply fail_fast_pure. Qed.

Lemma fail_fast_py_range (r : remote) (a b : nat) : fail_fast r (py_range a b).
Proof. destruct b; apply fail_fast_pure. Qed.

(** ** The revised script: remote calls *)

Lemma current_search_fail_fast (r : remote) (q : string) (start b : nat) :
  fail_fast r (Current.search_pubmed r q start b).
Proof.
  unfold Current.search_pubmed.
  apply (fail_fast_get r (Search q start b)). intros resp.
  apply fail_fast_bind; [apply fail_fast_fromstring|]. intros root.
  apply fail_fast_bind; [|intros; apply fail_fast_pure].
  destruct (find path_Count root); [|apply fail_fast_pure].
  apply fail_fast_bind; [apply fail_fast_py_int | intros; apply fail_fast_pure].
Qed.

Lemma current_parse_fail_fast (r : remote) (article : Element) :
  fail_fast r (Current.parse_article article).
Proof.
  unfold Current.parse_article.
  apply fail_fast_bind; [apply fail_fast_dot_text|]. intros p.
  apply fail_fast_bind; [apply fail_fast_dot_text|]. intros t.
  apply fail_fast_pure.
Qed.

Lemma current_fetch_fail_fast (r : remote) (ids : list (option string)) :
  fail_fast r (Current.fetch_pubmed_details r ids).
Proof.
  unfold Current.fetch_pubmed_details.
  destruct ids as [|i ids]; [apply fail_fast_pure|].
  apply fail_fast_bind; [apply fail_fast_join_comma|]. intros s.
  apply (fail_fast_get r (Fetch s)). intros resp.
  apply fail_fast_bind; [apply fail_fast_fromstring|]. intros root.
  apply fail_fast_for_each. intros a. apply current_parse_fail_fast.
Qed.

Lemma current_pager_S (fuel : nat) (r : remote) (q : string) (b : nat)
      (acc : list (option string)) (start : nat) (tc : option Z) :
  Current.pager (S fuel) r q b acc start tc =
  (page <- Current.search_pubmed r q start b ;;
   let (pubmed_ids, batch_total_count) := page in
   let total_count := match tc with
                      | None => batch_total_count
                      | Some _ => tc
                      end in
   let all_pubmed_ids := acc ++ pubmed_ids in
   reached <- len_ge (List.length all_pubmed_ids) total_count ;;
   if reached || (List.length pubmed_ids <? b)%nat then ret all_pubmed_ids
   else time_sleep 1 ;;;
        Current.pager fuel r q b all_pubmed_ids (start + b) total_count).
Proof. reflexivity. Qed.

Lemma current_pager_fail_fast (r : remote) (q : string) (b : nat) :
  forall fuel acc start tc,
    fail_fast r (Current.pager fuel r q b acc start tc).
Proof.
  induction fuel as [|fuel IH]; intros acc start tc.
  - apply fail_fast_pure.
  - rewrite current_pager_S.
    apply fail_fast_bind; [apply current_search_fail_fast|].
    intros [ids cnt].
    apply fail_fast_bind; [apply fail_fast_len_ge|]. intros reached.
    destruct (reached || _); [apply fail_fast_pure|].
    apply fail_fast_bind; [apply fail_fast_sleep|]. intros _. apply IH.
Qed.

Lemma current_fetch_all_fail_fast (r : remote) (fs : nat)
      (ids : list (option string)) :
  fail_fast r (Current.fetch_all r fs ids).
Proof.
  unfold Current.fetch_all.
  apply fail_fast_bind; [apply fail_fast_py_range|]. intros idx.
  apply fail_fast_bind; [|intros; apply fail_fast_pure].
  apply fail_fast_for_each. intros i.
  apply fail_fast_bind; [apply current_fetch_fail_fast|]. intros ps.
  apply fail_fast_bind; [apply fail_fast_sleep|]. intros _.
  apply fail_fast_pure.
Qed.

Lemma current_get_all_fail_fast (fuel : nat) (r : remote) (q : string)
      (b fs : nat) :
  fail_fast r (Current.get_all_publications fuel r q b fs).
Proof.
  unfold Current.get_all_publications.
  apply fail_fast_bind; [apply current_pager_fail_fast|].
  intros ids. apply current_fetch_all_fail_fast.
Qed.

(** ** The revised script: records *)

Lemma current_parse_inv (article : Element) (a : Current.Article) :
  fst (Current.parse_article article) = Ok a ->
  exists p t,
    find path_PMID article = Some p /\
    find path_ArticleTitle article = Some t /\
    a = Current.mkArticle
          (text p) (text t)
          (match find path_AbstractText article with
           | Some e => text e
           | None => None
           end)
          (find_github_link article)
          (is_not_None (find_github_link article)).
Proof.
  unfold Current.parse_article. intros H.
  destruct (find path_PMID article) as [p|]; [|discriminate].
  destruct (find path_ArticleTitle article) as [t|]; [|discriminate].
  simpl in H. inversion H. now exists p, t.
Qed.

Lemma current_fetch_inv (r : remote) (ids : list (option string))
      (articles : list Current.Article) (P : Current.Article -> Prop) :
  (forall article a, fst (Current.parse_article article) = Ok a -> P a) ->
  fst (Current.fetch_pubmed_details r ids) = Ok articles ->
  Forall P articles.
Proof.
  intros HP. unfold Current.fetch_pubmed_details.
  destruct ids as [|i ids]; [intros H; inversion H; constructor|].
  intros H. apply bind_fst_Ok_inv in H as (s & _ & H).
  apply bind_fst_Ok_inv in H as (resp & _ & H).
  destruct (status_code resp =? 200)%Z; [|discriminate].
  apply bind_fst_Ok_inv in H as (root & _ & H).
  eapply for_each_Forall; [|exact H]. intros x y _. apply HP.
Qed.

Lemma Forall_concat {A : Type} (P : A -> Prop) (ls : list (list A)) :
  Forall (Forall P) ls -> Forall P (List.concat ls).
Proof.
  induction 1; simpl; [constructor|]. apply Forall_app. now split.
Qed.

Lemma current_get_all_inv (fuel : nat) (r : remote) (q : string) (b fs : nat)
      (publications : list Current.Article) (P : Current.Article -> Prop) :
  (forall article a, fst (Current.parse_article article) = Ok a -> P a) ->
  fst (Current.get_all_publications fuel r q b fs) = Ok publications ->
  Forall P publications.
Proof.
  intros HP H. unfold Current.get_all_publications in H.
  apply bind_fst_Ok_inv in H as (ids & _ & H).
  unfold Current.fetch_all in H.
  apply bind_fst_Ok_inv in H as (idx & _ & H).
  apply bind_fst_Ok_inv in H as (batches & Hb & H).
  inversion H; subst. apply Forall_concat.
  eapply for_each_Forall; [|exact Hb]. intros i ps _ Hps.
  apply bind_fst_Ok_inv in Hps as (ps' & Hf & Hps).
  apply bind_fst_Ok_inv in Hps as (u & _ & Hps).
  inversion Hps; subst. eapply current_fetch_inv; eauto.
Qed.

(** ** The pager loop on a paging service *)

Lemma fst_bind {A B : Type} (m : M A) (f : A -> M B) (a : A) :
  fst m = Ok a -> fst (bind m f) = fst (f a).
Proof.
  destruct m as [o t]; simpl; intros ->. now destruct (f a).
Qed.

Lemma fst_bind_Raise {A B : Type} (m : M A) (f : A -> M B) (e : error) :
  fst m = Raise e -> fst (bind m f) = Raise e.
Proof. destruct m as [o t]; simpl; now intros ->. Qed.

Lemma firstn_slice {A : Type} (l : list A) (i b : nat) :
  firstn i l ++ slice l i (i + b) = firstn (i + b) l.
Proof.
  unfold slice. replace (i + b - i) with b by lia.
  revert l; induction i as [|i IH]; intros l; simpl; trivial.
  destruct l as [|x l]; simpl.
  - now rewrite firstn_nil.
  - now rewrite IH.
Qed.

Lemma length_slice {A : Type} (l : list A) (i b : nat) :
  List.length (slice l i (i + b)) = Nat.min b (List.length l - i).
Proof.
  unfold slice. replace (i + b - i) with b by lia.
  now rewrite length_firstn, length_skipn.
Qed.

Lemma firstn_min {A : Type} (l : list A) (m : nat) :
  firstn m l = firstn (Nat.min m (List.length l)) l.
Proof.
  destruct (Nat.le_gt_cases m (List.length l)) as [H|H].
  - now rewrite Nat.min_l.
  - rewrite Nat.min_r by lia. rewrite firstn_all.
    apply firstn_all2. lia.
Qed.

Lemma pages_for_pos (b : nat) (T : Z) : 1 <= pages_for b T.
Proof. unfold pages_for. lia. Qed.

Lemma pages_for_lower (b : nat) (T : Z) (k : nat) :
  0 < b -> (Z.of_nat (k * b) < T)%Z -> k + 1 <= pages_for b T.
Proof.
  intros Hb HT. unfold pages_for.
  assert (Z.of_nat (k + 1) <= (T + Z.of_nat b - 1) / Z.of_nat b)%Z.
  { apply Z.div_le_lower_bound; [lia|]. nia. }
  lia.
Qed.

Lemma pages_for_upper (b : nat) (T : Z) (k : nat) :
  0 < b -> 1 <= k -> (T <= Z.of_nat (k * b))%Z -> pages_for b T <= k.
Proof.
  intros Hb Hk HT. unfold pages_for.
  assert ((T + Z.of_nat b - 1) / Z.of_nat b < Z.of_nat (k + 1))%Z.
  { apply Z.div_lt_upper_bound; [lia|]. nia. }
  lia.
Qed.

Lemma current_search_trace (r : remote) (q : string) (start b : nat) :
  snd (Current.search_pubmed r q start b)
  = [Get (Search q start b) (status_code (r (Search q start b)))].
Proof.
  unfold Current.search_pubmed, requests_get, bind.
  destruct (status_code (r (Search q start b)) =? 200)%Z; [|reflexivity].
  destruct (content (r (Search q start b))) as [root|]; simpl; [|reflexivity].
  destruct (find path_Count root) as [c|]; simpl; [|reflexivity].
  destruct (text c) as [s|]; simpl; [|reflexivity].
  destruct (int_of_string s); reflexivity.
Qed.

Lemma current_search_Ok_status (r : remote) (q : string) (start b : nat)
      (page : list (option string) * option Z) :
  fst (Current.search_pubmed r q start b) = Ok page ->
  status_code (r (Search q start b)) = 200%Z.
Proof.
  unfold Current.search_pubmed, requests_get, bind.
  destruct (status_code (r (Search q start b)) =? 200)%Z eqn:E.
  - intros _. now apply Z.eqb_eq.
  - discriminate.
Qed.

Lemma current_search_Ok (r : remote) (q : string) (start b : nat)
      (page : list (option string) * option Z) :
  fst (Current.search_pubmed r q start b) = Ok page ->
  Current.search_pubmed r q start b = (Ok page, [Get (Search q start b) 200%Z]).
Proof.
  intros H. rewrite (surjective_pairing (Current.search_pubmed r q start b)).
  rewrite H, current_search_trace.
  now rewrite (current_search_Ok_status _ _ _ _ _ H).
Qed.

Lemma div_bounds (n b : nat) :
  0 < b -> b * (n / b) <= n /\ n < b * (n / b) + b.
Proof.
  intros Hb. pose proof (Nat.div_mod_eq n b).
  pose proof (Nat.mod_upper_bound n b). lia.
Qed.

Section CurrentPager.
Variables (r : remote) (q : string) (b : nat) (records : list string) (T : Z).
Hypothesis b_pos : 0 < b.
Hypothesis served : serves_pages r q b records T.

Let n := List.length records.

(** The loop after [j] full pages, with [m] requests still to make. *)
Lemma current_pager_loop :
  forall fuel j tc m,
    j * b <= n ->
    (tc = None /\ j = 0) \/ (tc = Some T /\ (Z.of_nat (j * b) < T)%Z) ->
    n - j * b < fuel ->
    j + m = Nat.min (pages_for b T) (n / b + 1) ->
    Current.pager fuel r q b (map Some (firstn (j * b) records)) (j * b) tc
    = (Ok (map Some (firstn (b * pages_for b T) records)),
       page_requests q b (j * b) m).
Proof.
  induction fuel as [|fuel IH]; intros j tc m Hj Htc Hfuel Hm; [lia|].
  rewrite current_pager_S.
  destruct (served (j * b)) as (c & Hpage & Hfirst).
  rewrite (bind_Ok _ _ _ _ (current_search_Ok _ _ _ _ _ Hpage)).
  assert (Etc : match tc with None => c | Some _ => tc end = Some T).
  { destruct Htc as [[-> ->]|[-> _]]; [|reflexivity].
    now apply Hfirst. }
  cbv beta iota zeta. rewrite Etc. clear Etc.
  rewrite <- map_app, firstn_slice.
  unfold len_ge. rewrite bind_ret.
  rewrite !length_map, length_slice, length_firstn. fold n.
  pose proof (pages_for_pos b T) as P1.
  destruct (div_bounds n b b_pos) as [D1 D2].
  assert (P2 : j + 1 <= pages_for b T).
  { destruct Htc as [[_ ->]|[_ H]]; [lia|]. now apply pages_for_lower. }
  assert (D3 : j <= n / b) by nia.
  destruct ((T <=? Z.of_nat (Nat.min (j * b + b) n))%Z
            || (Nat.min b (n - j * b) <? b)%nat) eqn:Stop.
  - apply orb_true_iff in Stop.
    assert (Hlast : Nat.min (pages_for b T) (n / b + 1) = j + 1
                    /\ Nat.min (j * b + b) n = Nat.min (b * pages_for b T) n).
    { destruct Stop as [Hr|Hs].
      - apply Z.leb_le in Hr.
        destruct (Nat.le_gt_cases (j * b + b) n) as [Hfull|Hshort].
        + assert (pages_for b T <= j + 1)
            by (apply pages_for_upper; [trivial | lia | lia]).
          assert (pages_for b T = j + 1) as -> by lia. split; lia.
        + assert (n / b <= j) by nia.
          assert (n <= b * pages_for b T) by nia. split; lia.
      - apply Nat.ltb_lt in Hs.
        assert (n / b <= j) by nia.
        assert (n <= b * pages_for b T) by nia. split; lia. }
    destruct Hlast as [HK Hmin].
    assert (m = 1) as -> by lia.
    simpl. do 3 f_equal.
    rewrite (firstn_min records (j * b + b)).
    rewrite (firstn_min records (b * pages_for b T)). fold n.
    now rewrite Hmin.
  - apply orb_false_iff in Stop as [Hr Hs].
    apply Z.leb_gt in Hr. apply Nat.ltb_ge in Hs.
    assert (Hnext : (Z.of_nat (S j * b) < T)%Z) by (simpl; lia).
    pose proof (pages_for_lower b T (S j) b_pos Hnext) as P3.
    assert (D4 : S j <= n / b) by nia.
    destruct m as [|[|m]]; [lia | lia |].
    replace (j * b + b) with (S j * b) by (simpl; lia).
    unfold time_sleep, bind.
    rewrite (IH (S j) (Some T) (S m)); [| simpl; lia | now right
                                        | simpl; lia | lia].
    replace (S j * b) with (j * b + b) by (simpl; lia).
    reflexivity.
Qed.

(** With fuel for one request more than there are records, the loop
    returns the whole pages that reach the count, cut at the records
    the service has. *)
Lemma current_pager_pages (fuel : nat) :
  n < fuel ->
  Current.pager fuel r q b [] 0 None
  = (Ok (map Some (firstn (b * pages_for b T) records)),
     page_requests q b 0 (Nat.min (pages_for b T) (n / b + 1))).
Proof.
  intros Hfuel.
  apply (current_pager_loop fuel 0 None); simpl; [lia | now left | lia | lia].
Qed.
End CurrentPager.

(** ** The first script: the pager loop *)

Lemma legacy_search_of_current (r : remote) (q : string) (start b : nat)
      (ids : list (option string)) (c : option Z) :
  fst (Current.search_pubmed r q start b) = Ok (ids, c) ->
  Legacy.search_pubmed r q start b = (Ok ids, [Get (Search q start b) 200%Z]).
Proof.
  intros H. pose proof (current_search_Ok_status _ _ _ _ _ H) as Hst.
  revert H. unfold Current.search_pubmed, Legacy.search_pubmed, requests_get, bind.
  rewrite Hst. simpl.
  destruct (content (r (Search q start b))) as [root|]; simpl; [|discriminate].
  destruct (find path_Count root) as [c'|]; simpl.
  - destruct (text c') as [s|]; simpl; [|discriminate].
    destruct (int_of_string s); simpl; [|discriminate].
    intros H; now inversion H.
  - intros H; now inversion H.
Qed.

Lemma legacy_pager_S (fuel : nat) (r : remote) (q : string) (b : nat)
      (acc : list (option string)) (start : nat) :
  Legacy.pager (S fuel) r q b acc start =
  (pubmed_ids <- Legacy.search_pubmed r q start b ;;
   let all_pubmed_ids := acc ++ pubmed_ids in
   if (List.length pubmed_ids <? b)%nat then ret all_pubmed_ids
   else time_sleep 1 ;;;
        Legacy.pager fuel r q b all_pubmed_ids (start + b)).
Proof. reflexivity. Qed.

Lemma serves_pages_ids (r : remote) (q : string) (b : nat)
      (records : list string) (T : Z) :
  serves_pages r q b records T -> serves_ids r q b records.
Proof.
  intros H start. destruct (H start) as (c & Hpage & _).
  now rewrite (legacy_search_of_current _ _ _ _ _ _ Hpage).
Qed.

Lemma legacy_search_Ok (r : remote) (q : string) (start b : nat)
      (ids : list (option string)) :
  fst (Legacy.search_pubmed r q start b) = Ok ids ->
  Legacy.search_pubmed r q start b = (Ok ids, [Get (Search q start b) 200%Z])
  /\ status_code (r (Search q start b)) = 200%Z
  /\ exists root,
      content (r (Search q start b)) = Some root /\
      ids = map text (findall path_IdList_Id root).
Proof.
  unfold Legacy.search_pubmed, requests_get, bind.
  destruct (status_code (r (Search q start b)) =? 200)%Z eqn:E; [|discriminate].
  apply Z.eqb_eq in E. rewrite E.
  destruct (content (r (Search q start b))) as [root|]; simpl; [|discriminate].
  intros H; inversion H; subst. repeat split. now exists root.
Qed.

Section LegacyPager.
Variables (r : remote) (q : string) (b : nat) (records : list string).
Hypothesis b_pos : 0 < b.
Hypothesis served : serves_ids r q b records.

Let n := List.length records.

Lemma legacy_pager_loop :
  forall fuel j m,
    j * b <= n ->
    n - j * b < fuel ->
    j + m = n / b + 1 ->
    Legacy.pager fuel r q b (map Some (firstn (j * b) records)) (j * b)
    = (Ok (map Some records), page_requests q b (j * b) m).
Proof.
  induction fuel as [|fuel IH]; intros j m Hj Hfuel Hm; [lia|].
  rewrite legacy_pager_S.
  rewrite (bind_Ok _ _ _ _ (proj1 (legacy_search_Ok _ _ _ _ _ (served (j * b))))).
  cbv beta iota zeta. rewrite <- map_app, firstn_slice.
  rewrite length_map, length_slice. fold n.
  destruct (div_bounds n b b_pos) as [D1 D2].
  destruct (Nat.min b (n - j * b) <? b)%nat eqn:Short.
  - apply Nat.ltb_lt in Short.
    assert (n / b <= j) by nia. assert (j <= n / b) by nia.
    assert (m = 1) as -> by lia.
    simpl. do 3 f_equal. apply firstn_all2. fold n. lia.
  - apply Nat.ltb_ge in Short.
    assert (S j <= n / b) by nia.
    destruct m as [|[|m]]; [lia | lia |].
    replace (j * b + b) with (S j * b) by (simpl; lia).
    unfold time_sleep, bind.
    rewrite (IH (S j) (S m)); [| simpl; lia | simpl; lia | lia].
    replace (S j * b) with (j * b + b) by (simpl; lia).
    reflexivity.
Qed.

(** The first script has no count check: it asks for pages until a
    short one arrives and so collects every record. *)
Lemma legacy_pager_all (fuel : nat) :
  n < fuel ->
  Legacy.pager fuel r q b [] 0
  = (Ok (map Some records), page_requests q b 0 (n / b + 1)).
Proof.
  intros Hfuel. apply (legacy_pager_loop fuel 0); simpl; lia.
Qed.
End LegacyPager.

(** ** The paging service of the scenarios *)

Lemma filter_Id_leaves (ids : list string) :
  filter (has_tag "Id") (map (fun i => leaf "Id" (Some i)) ids)
  = map (fun i => leaf "Id" (Some i)) ids.
Proof. induction ids as [|i ids IH]; simpl; [reflexivity | now rewrite IH]. Qed.

Lemma findall_ids_eSearchResult (count : option string) (ids : list string) :
  map text (findall path_IdList_Id (eSearchResult count ids)) = map Some ids.
Proof.
  unfold findall, eSearchResult.
  destruct count; simpl; rewrite app_nil_r, filter_Id_leaves, map_map;
    reflexivity.
Qed.

Lemma paging_remote_serves (c : string) (T : Z) (records : list string)
      (fetched : Response) (q : string) (b : nat) :
  int_of_string c = Some T ->
  serves_pages (paging_remote (Some c) records fetched) q b records T.
Proof.
  intros Hc start. exists (Some T). split; [|reflexivity].
  unfold Current.search_pubmed, requests_get, bind, paging_remote.
  cbn [status_code content Z.eqb Pos.eqb fromstring ret].
  rewrite findall_ids_eSearchResult.
  cbn. rewrite Hc. reflexivity.
Qed.

(** ** Claims on the pager loop *)

(** C1 (as amended).  On a service that answers page requests of size
    [b > 0] with the windows of its [n] records and reports the count
    [T] on its first page, the pager of the revised script accumulates
    whole pages: the first [min n (b * max 1 (ceil (T / b)))]
    identifiers, after [min (max 1 (ceil (T / b))) (n / b + 1)]
    requests; this is [min T n] identifiers whenever [n <= T].  The
    pager of the first script has no count check and accumulates all
    [n] identifiers after [n / b + 1] requests.  For the count 3 and
    the single page ["1"; "2"; "3"] with a page size of at least 3 the
    revised pager returns exactly these identifiers after one
    request. *)
Theorem pager_accumulates_whole_pages :
  forall (r : remote) (q : string) (b : nat) (records : list string)
         (T : Z) (fuel : nat),
    0 < b ->
    serves_pages r q b records T ->
    List.length records < fuel ->
    let n := List.length records in
    let ids := firstn (b * pages_for b T) records in
    Current.pager fuel r q b [] 0 None
    = (Ok (map Some ids),
       page_requests q b 0 (Nat.min (pages_for b T) (n / b + 1)))
    /\ List.length ids = Nat.min n (b * pages_for b T)
    /\ ((Z.of_nat n <= T)%Z ->
        ids = records /\ Z.of_nat (List.length ids) = Z.min T (Z.of_nat n))
    /\ Legacy.pager fuel r q b [] 0
       = (Ok (map Some records), page_requests q b 0 (n / b + 1))
    /\ (records = ["1"; "2"; "3"] -> T = 3%Z -> 3 <= b ->
        Current.pager fuel r q b [] 0 None
        = (Ok [Some "1"; Some "2"; Some "3"], [Get (Search q 0 b) 200%Z])).
Proof.
  intros r q b records T fuel Hb Hserved Hfuel n ids.
  pose proof (current_pager_pages r q b records T Hb Hserved fuel Hfuel) as HC.
  fold n in HC. fold ids in HC.
  assert (Hlen : List.length ids = Nat.min n (b * pages_for b T)).
  { unfold ids. rewrite length_firstn. fold n. lia. }
  split; [exact HC|]. split; [exact Hlen|]. split; [|split].
  - intros HT.
    assert (Hn : n <= b * pages_for b T).
    { destruct (Nat.le_gt_cases n (b * pages_for b T)) as [H|H]; trivial.
      pose proof (pages_for_pos b T) as P1.
      assert (HT' : (T <= Z.of_nat (pages_for b T * b))%Z \/
                    (Z.of_nat (pages_for b T * b) < T)%Z) by lia.
      destruct HT' as [HT'|HT'].
      - lia.
      - pose proof (pages_for_lower b T (pages_for b T) Hb HT'). lia. }
    split.
    + unfold ids. apply firstn_all2. fold n. exact Hn.
    + rewrite Hlen. lia.
  - exact (legacy_pager_all r q b records Hb
             (serves_pages_ids _ _ _ _ _ Hserved) fuel Hfuel).
  - intros Hrec HT3 Hb3. rewrite HC.
    assert (P : pages_for b T = 1).
    { pose proof (pages_for_pos b T).
      assert (pages_for b T <= 1)
        by (apply pages_for_upper; [trivial | lia | subst T; lia]).
      lia. }
    assert (Hn3 : n = 3) by (unfold n; now rewrite Hrec).
    unfold ids. rewrite P, Hn3.
    replace (Nat.min 1 (3 / b + 1)) with 1 by lia.
    rewrite firstn_all2 by (rewrite Hrec; simpl; lia).
    now rewrite Hrec.
Qed.

(** C1, witness: the scenario service with three records and the
    count 3, asked with the page size of the revised script. *)
Lemma pager_accumulates_whole_pages_witness :
  let r := paging_remote (Some "3") ["1"; "2"; "3"] (mkResponse 200 None) in
  0 < 100 /\
  serves_pages r query 100 ["1"; "2"; "3"] 3 /\
  3 < 4 /\
  Current.pager 4 r query 100 [] 0 None
  = (Ok [Some "1"; Some "2"; Some "3"], [Get (Search query 0 100) 200%Z]).
Proof.
  intros r.
  assert (H1 : 0 < 100) by lia.
  assert (H2 : serves_pages r query 100 ["1"; "2"; "3"] 3)
    by (apply paging_remote_serves; reflexivity).
  assert (H3 : List.length ["1"; "2"; "3"] < 4) by (simpl; lia).
  pose proof (pager_accumulates_whole_pages
                r query 100 ["1"; "2"; "3"] 3 4 H1 H2 H3) as H.
  cbv zeta in H. destruct H as (_ & _ & _ & _ & H).
  split; [exact H1 | split; [exact H2 | split; [lia|]]].
  apply H; [reflexivity | reflexivity | lia].
Defined.

(** C1, counterexample: a service with five records that reports the
    count 3, asked with the page size 100 of the revised script.  The
    first page is short and holds all five identifiers; all five are
    accumulated, not [min 3 5].  With pages of 2 the loop stops at the
    page boundary after the count, with four identifiers. *)
Lemma pager_count_is_not_the_minimum :
  let records := ["1"; "2"; "3"; "4"; "5"] in
  let r := paging_remote (Some "3") records (mkResponse 200 None) in
  serves_pages r query 100 records 3
  /\ Current.pager 6 r query 100 [] 0 None
     = (Ok [Some "1"; Some "2"; Some "3"; Some "4"; Some "5"],
        [Get (Search query 0 100) 200%Z])
  /\ Z.of_nat (List.length [Some "1"; Some "2"; Some "3"; Some "4"; Some "5"])
     <> Z.min 3 (Z.of_nat (List.length records))
  /\ fst (Current.pager 6 r query 2 [] 0 None)
     = Ok [Some "1"; Some "2"; Some "3"; Some "4"].
Proof.
  intros records r. split; [|split; [|split]].
  - apply paging_remote_serves. reflexivity.
  - vm_compute. reflexivity.
  - vm_compute. discriminate.
  - vm_compute. reflexivity.
Qed.

(** C6 (the code departs from the claim).  When the first search page
    carries no [Count] element, the pager of the revised script compares
    the accumulated length with [None] and ends with a [TypeError]
    right after the first request; the pager of the first script, on
    the same service, stops on the short page alone and returns every
    record. *)
Theorem pager_without_count :
  forall (r : remote) (q : string) (b : nat) (records : list string)
         (root : Element) (fuel : nat),
    0 < b ->
    serves_ids r q b records ->
    content (r (Search q 0 b)) = Some root ->
    find path_Count root = None ->
    List.length records < fuel ->
    Current.pager fuel r q b [] 0 None
    = (Raise TypeError, [Get (Search q 0 b) 200%Z])
    /\ Legacy.pager fuel r q b [] 0
       = (Ok (map Some records),
          page_requests q b 0 (List.length records / b + 1)).
Proof.
  intros r q b records root fuel Hb Hserved Hroot Hcount Hfuel. split.
  - destruct fuel as [|fuel]; [lia|].
    destruct (legacy_search_Ok _ _ _ _ _ (Hserved 0)) as (_ & Hst & _).
    rewrite current_pager_S.
    unfold Current.search_pubmed, requests_get, bind.
    rewrite Hst, Hroot. simpl. rewrite Hcount. reflexivity.
  - now apply legacy_pager_all.
Qed.

(** C6, witness: two records served without any count. *)
Lemma pager_without_count_witness :
  let r := paging_remote None ["1"; "2"] (mkResponse 200 None) in
  Current.pager 3 r query 100 [] 0 None
  = (Raise TypeError, [Get (Search query 0 100) 200%Z])
  /\ Legacy.pager 3 r query 100 [] 0
     = (Ok [Some "1"; Some "2"], [Get (Search query 0 100) 200%Z]).
Proof.
  intros r.
  assert (Hs : serves_ids r query 100 ["1"; "2"]).
  { intros start. unfold Legacy.search_pubmed, requests_get, bind, r, paging_remote.
    cbn [status_code content Z.eqb Pos.eqb fromstring ret].
    now rewrite findall_ids_eSearchResult. }
  exact (pager_without_count r query 100 ["1"; "2"]
           (eSearchResult None (slice ["1"; "2"] 0 (0 + 100))) 3
           (Nat.lt_0_succ 99) Hs eq_refl eq_refl (Nat.lt_succ_diag_r 2)).
Defined.

(** ** Claims on missing fields, the pattern and the abstract *)

Lemma for_each_raise {A B : Type} (f : A -> M B) (e : error) (l : list A) (x0 : A) :
  (forall x, fst (f x) = Raise e \/ exists y, fst (f x) = Ok y) ->
  In x0 l -> fst (f x0) = Raise e ->
  fst (for_each f l) = Raise e.
Proof.
  intros Hf. induction l as [|x l IH]; intros Hin H0; [contradiction|].
  simpl. destruct (Hf x) as [Hx|[y Hx]].
  - now apply fst_bind_Raise.
  - rewrite (fst_bind _ _ _ Hx).
    destruct Hin as [->|Hin]; [congruence|].
    apply fst_bind_Raise. now apply IH.
Qed.

Lemma current_parse_cases (article : Element) :
  fst (Current.parse_article article) = Raise AttributeError
  \/ exists a, fst (Current.parse_article article) = Ok a.
Proof.
  unfold Current.parse_article.
  destruct (find path_PMID article); [|now left].
  destruct (find path_ArticleTitle article); [|now left].
  right. simpl. eauto.
Qed.

Lemma legacy_parse_cases (article : Element) :
  fst (Legacy.parse_article article) = Raise AttributeError
  \/ exists a, fst (Legacy.parse_article article) = Ok a.
Proof.
  unfold Legacy.parse_article.
  destruct (find path_PMID article); [|now left].
  destruct (find path_ArticleTitle article); [|now left].
  right. simpl. eauto.
Qed.

Lemma current_parse_no_title (article : Element) :
  find path_ArticleTitle article = None ->
  Current.parse_article article = (Raise AttributeError, []).
Proof.
  unfold Current.parse_article. intros ->.
  now destruct (find path_PMID article).
Qed.

Lemma legacy_parse_no_title (article : Element) :
  find path_ArticleTitle article = None ->
  Legacy.parse_article article = (Raise AttributeError, []).
Proof.
  unfold Legacy.parse_article. intros ->.
  now destruct (find path_PMID article).
Qed.

(** C3 (the code departs from the claim).  A record sub-document
    without a title node makes [fetch_pubmed_details] end with an
    [AttributeError] in both scripts: no record is produced for the
    batch.  A record without an abstract node, with its id and title
    present, is parsed to a record whose abstract is absent. *)
Theorem missing_title_is_not_tolerated :
  forall (r : remote) (ids : list (option string)) (s : string)
         (root article : Element),
    ids <> [] ->
    fst (join_comma ids) = Ok s ->
    r (Fetch s) = mkResponse 200 (Some root) ->
    In article (findall path_PubmedArticle root) ->
    find path_ArticleTitle article = None ->
    fst (Current.fetch_pubmed_details r ids) = Raise AttributeError
    /\ fst (Legacy.fetch_pubmed_details r ids) = Raise AttributeError
    /\ (forall (other p t : Element),
           find path_PMID other = Some p ->
           find path_ArticleTitle other = Some t ->
           find path_AbstractText other = None ->
           Current.parse_article other
           = (Ok (Current.mkArticle (text p) (text t) None
                    (find_github_link other)
                    (is_not_None (find_github_link other))), [])).
Proof.
  intros r ids s root article Hne Hjoin Hr Hin Htitle.
  split; [|split].
  - unfold Current.fetch_pubmed_details.
    destruct ids as [|i ids]; [congruence|].
    rewrite (fst_bind _ _ _ Hjoin).
    rewrite (fst_bind _ _ (r (Fetch s))) by reflexivity.
    rewrite Hr. cbn [status_code content Z.eqb Pos.eqb fromstring].
    rewrite bind_ret.
    apply (for_each_raise _ _ _ article); trivial.
    + apply current_parse_cases.
    + now rewrite current_parse_no_title.
  - unfold Legacy.fetch_pubmed_details.
    destruct ids as [|i ids]; [congruence|].
    rewrite (fst_bind _ _ _ Hjoin).
    rewrite (fst_bind _ _ (r (Fetch s))) by reflexivity.
    rewrite Hr. cbn [status_code content Z.eqb Pos.eqb fromstring].
    rewrite bind_ret.
    apply (for_each_raise _ _ _ article); trivial.
    + apply legacy_parse_cases.
    + now rewrite legacy_parse_no_title.
  - intros other p t Hp Ht Ha. unfold Current.parse_article.
    now rewrite Hp, Ht, Ha.
Qed.

(** C3, witness: a batch of two records, the second without a title. *)
Lemma missing_title_is_not_tolerated_witness :
  let r := paging_remote (Some "2") ["1"; "3"]
                         (fetched [tool_article; untitled_article]) in
  fst (Current.fetch_pubmed_details r [Some "1"; Some "3"]) = Raise AttributeError
  /\ fst (Legacy.fetch_pubmed_details r [Some "1"; Some "3"]) = Raise AttributeError.
Proof.
  intros r.
  destruct (missing_title_is_not_tolerated
              r [Some "1"; Some "3"] "1,3"
              (PubmedArticleSet [tool_article; untitled_article])
              untitled_article) as (H1 & H2 & _).
  - discriminate.
  - reflexivity.
  - reflexivity.
  - right. left. reflexivity.
  - reflexivity.
  - split; assumption.
Defined.

(** C4 (as amended).  The pattern is matched case-sensitively: every
    URL [http(s)://[www.]github.com/<owner>/<repo>] in lower-case
    scheme and host, with owner and repository non-empty runs of
    characters other than whitespace and [/], is returned whole by the
    search when no match starts before it and the repository run ends
    with it; every match the search returns has this lower-case form
    and is the leftmost one.  The record whose abstract is
    ["see https://github.com/acme/tool for code"] gets the link
    ["https://github.com/acme/tool"] and the flag [true]. *)
Theorem github_pattern_is_case_sensitive :
  (forall (secure www : bool) (owner repo pre post : string),
      run owner -> run repo ->
      ends_run not_space_slash post ->
      no_match_inside github_regex pre
                      (github_url secure www owner repo ++ post) ->
      re_search github_regex (pre ++ github_url secure www owner repo ++ post)
      = Some (github_url secure www owner repo))
  /\ (forall (s m : string),
         re_search github_regex s = Some m ->
         exists secure www owner repo pre post,
           m = github_url secure www owner repo /\ run owner /\ run repo /\
           s = (pre ++ m ++ post)%string /\
           no_match_inside github_regex pre (m ++ post))
  /\ Current.parse_article tool_article
     = (Ok (Current.mkArticle
              (Some "1") (Some "A tool")
              (Some "see https://github.com/acme/tool for code")
              (Some "https://github.com/acme/tool") true), []).
Proof.
  split; [|split].
  - intros secure www owner repo pre post Ho Hr Hpost Hno.
    apply re_search_leftmost; trivial. now apply github_match.
  - intros s m H.
    destruct (re_search_sound _ _ _ H) as (pre & post & Hs & Hl & Hno).
    destruct (github_lang_inv _ Hl) as (secure & www & owner & repo & Hm & Ho & Hr).
    now exists secure, www, owner, repo, pre, post.
  - vm_compute. reflexivity.
Qed.

(** C4, witness: the URL of the scenario inside its sentence. *)
Lemma github_pattern_is_case_sensitive_witness :
  re_search github_regex "see https://github.com/acme/tool for code"
  = Some "https://github.com/acme/tool".
Proof.
  apply (proj1 github_pattern_is_case_sensitive true false "acme" "tool"
               "see " " for code").
  - split; [discriminate | reflexivity].
  - split; [discriminate | reflexivity].
  - reflexivity.
  - intros p1 c p2 Hp.
    destruct p1 as [|a1 [|a2 [|a3 [|a4 p1]]]]; simpl in Hp;
      inversion Hp; subst; try reflexivity.
    destruct p1; discriminate.
Defined.

(** C4, counterexample: the same sentence with the scheme or the host
    in upper case yields no link. *)
Lemma uppercase_url_is_not_matched :
  find_github_link
    (PubmedArticle "1" (Some (leaf "ArticleTitle" (Some "A tool")))
       (Some [leaf "AbstractText"
                   (Some "see HTTPS://github.com/acme/tool for code")]))
  = None
  /\ find_github_link
       (PubmedArticle "1" (Some (leaf "ArticleTitle" (Some "A tool")))
          (Some [leaf "AbstractText"
                      (Some "see https://GitHub.com/acme/tool for code")]))
     = None
  /\ find_github_link tool_article = Some "https://github.com/acme/tool".
Proof. vm_compute. repeat split. Qed.

(** C9 (as amended).  [find_github_link] scans the leading text of
    every element of the record sub-document in document order (the
    element itself, then its children depth-first) and returns the
    leftmost match of the first such text that has one; text that
    follows a child element is not scanned.  When no leading text
    matches, the link is absent and the flag of the record is false. *)
Theorem find_github_link_scans_leading_texts :
  forall (article : Element),
    (forall u,
        find_github_link article = Some u <->
        exists before e after s,
          iter article = before ++ e :: after /\
          text e = Some s /\
          re_search github_regex s = Some u /\
          Forall no_link_in_text before)
    /\ (find_github_link article = None <->
        Forall no_link_in_text (iter article))
    /\ (forall a,
           fst (Current.parse_article article) = Ok a ->
           Current.github_link a = find_github_link article /\
           (find_github_link article = None ->
            Current.github_link a = None /\ Current.has_github_link a = false)).
Proof.
  intros article. split; [|split].
  - intros u. apply first_link_some.
  - apply first_link_none.
  - intros a Ha.
    destruct (current_parse_inv _ _ Ha) as (p & t & _ & _ & ->). simpl.
    split; trivial. now intros ->.
Qed.

(** C9, witness: a record without any link. *)
Lemma find_github_link_scans_leading_texts_witness :
  Forall no_link_in_text (iter plain_article)
  /\ exists a,
      fst (Current.parse_article plain_article) = Ok a /\
      Current.github_link a = None /\ Current.has_github_link a = false.
Proof.
  destruct (find_github_link_scans_leading_texts plain_article)
    as (_ & Hnone & Hrec).
  split.
  - apply Hnone. reflexivity.
  - eexists. split; [reflexivity|]. apply Hrec; reflexivity.
Defined.

(** C9, counterexample: the only URL of the record stands in the text
    after an inline element; a scan of every text finds it, the
    function does not. *)
Lemma link_after_inline_markup_is_missed :
  In " is at https://github.com/acme/tool" (itertext inline_markup_article)
  /\ spec_find_link inline_markup_article = Some "https://github.com/acme/tool"
  /\ find_github_link inline_markup_article = None.
Proof.
  split; [|split].
  - vm_compute. auto 10.
  - vm_compute. reflexivity.
  - vm_compute. reflexivity.
Qed.

(** ** The abstract *)

Lemma legacy_parse_inv (article : Element) (a : Legacy.Article) :
  fst (Legacy.parse_article article) = Ok a ->
  exists p t,
    find path_PMID article = Some p /\
    find path_ArticleTitle article = Some t /\
    a = Legacy.mkArticle
          (text p) (text t)
          (match find path_AbstractText article with
           | Some e => text e
           | None => None
           end)
          (find_github_link article).
Proof.
  unfold Legacy.parse_article. intros H.
  destruct (find path_PMID article) as [p|]; [|discriminate].
  destruct (find path_ArticleTitle article) as [t|]; [|discriminate].
  simpl in H. inversion H. now exists p, t.
Qed.

Lemma find_first_leading_text (path : list step) (article : Element) :
  match find path article with
  | Some e => text e
  | None => None
  end = first_leading_text path article.
Proof.
  unfold find, first_leading_text. now destruct (findall path article).
Qed.

(** C10.  The stored abstract of a record is the leading text of the
    first [Abstract/AbstractText] element, in both scripts: whatever the
    children of that element, the text after them and the further
    sections of the abstract hold, the abstract is the text [t] before
    the first child; and it is absent for an abstract that starts with
    inline markup although the element holds text. *)
Theorem abstract_is_first_leading_text :
  (forall (article : Element) (a : Current.Article),
      fst (Current.parse_article article) = Ok a ->
      Current.abstract a = first_leading_text path_AbstractText article)
  /\ (forall (article : Element) (a : Legacy.Article),
         fst (Legacy.parse_article article) = Ok a ->
         Legacy.abstract a = first_leading_text path_AbstractText article)
  /\ (forall (id : string) (title t tl : option string)
             (cs more : list Element),
         let article :=
           PubmedArticle id (Some (leaf "ArticleTitle" title))
                         (Some (Elem "AbstractText" t cs tl :: more)) in
         exists a a',
           Current.parse_article article = (Ok a, []) /\
           Current.abstract a = t /\
           Legacy.parse_article article = (Ok a', []) /\
           Legacy.abstract a' = t)
  /\ (exists a,
         Current.parse_article markup_first_article = (Ok a, []) /\
         Current.abstract a = None /\
         itertext markup_first_abstract
         = ["BRCA1"; " variants are scored by the tool."]).
Proof.
  split; [|split; [|split]].
  - intros article a Ha.
    destruct (current_parse_inv _ _ Ha) as (p & t & _ & _ & ->). simpl.
    apply find_first_leading_text.
  - intros article a Ha.
    destruct (legacy_parse_inv _ _ Ha) as (p & t & _ & _ & ->). simpl.
    apply find_first_leading_text.
  - intros id title t tl cs more article.
    eexists. eexists. split; [reflexivity|]. split; [reflexivity|].
    split; reflexivity.
  - eexists. split; [reflexivity|]. split; reflexivity.
Qed.

(** C10, witness: of the two sections only the text before the markup
    of the first is stored. *)
Lemma abstract_is_first_leading_text_witness :
  exists a,
    fst (Current.parse_article two_section_article) = Ok a /\
    Current.abstract a = Some "We present ".
Proof.
  eexists. split; [reflexivity|].
  exact (proj1 abstract_is_first_leading_text two_section_article _ eq_refl).
Defined.

(** ** The sink *)

Lemma current_parse_flag (article : Element) (a : Current.Article) :
  fst (Current.parse_article article) = Ok a -> link_flag_consistent a.
Proof.
  intros Ha. destruct (current_parse_inv _ _ Ha) as (p & t & _ & _ & ->).
  unfold link_flag_consistent. simpl.
  destruct (find_github_link article); simpl; split; congruence.
Qed.

(** The revised script leaves a file that holds exactly the records of
    the run, whatever was there before. *)
Lemma current_persist_rows (publications : list Current.Article)
      (d : disk Current.row) :
  snd (Current.persist publications d)
  = Some (mkDatabase (Some publications)).
Proof.
  unfold Current.persist. simpl.
  assert (E : (if os_path_exists d then os_remove d else d) = None)
    by (destruct d; reflexivity).
  rewrite E. now destruct publications.
Qed.

Lemma current_persist_summary (publications : list Current.Article)
      (d : disk Current.row) :
  fst (Current.persist publications d)
  = Current.summary_query (mkDatabase (Some publications)).
Proof.
  unfold Current.persist. simpl.
  assert (E : (if os_path_exists d then os_remove d else d) = None)
    by (destruct d; reflexivity).
  rewrite E. now destruct publications.
Qed.

(** The first script appends to the table it finds. *)
Lemma legacy_persist_rows (publications : list Legacy.Article)
      (d : disk Legacy.row) :
  disk_rows (snd (Legacy.persist publications d))
  = disk_rows d ++ publications.
Proof.
  unfold Legacy.persist. simpl.
  destruct d as [[[rows|]]|]; destruct publications; simpl;
    now rewrite ?app_nil_r.
Qed.

Lemma current_main_Ok (fuel : nat) (r : remote) (d d' : disk Current.row)
      (result : Current.Summary) (t : list event) :
  Current.main fuel r d = ((Ok result, t), d') ->
  exists publications,
    Current.get_all_publications fuel r query 100 100 = (Ok publications, t)
    /\ result = Current.summary_query (mkDatabase (Some publications))
    /\ d' = Some (mkDatabase (Some publications)).
Proof.
  unfold Current.main.
  destruct (Current.get_all_publications fuel r query 100 100)
    as [[publications|e|] t'] eqn:E; try discriminate.
  pose proof (current_persist_rows publications d) as Hr.
  pose proof (current_persist_summary publications d) as Hs.
  destruct (Current.persist publications d) as [res d1]. simpl in Hr, Hs.
  intros H; inversion H; subst. now exists publications.
Qed.

Lemma legacy_main_Ok (fuel : nat) (r : remote) (d d' : disk Legacy.row)
      (result : Legacy.Summary) (t : list event) :
  Legacy.main fuel r d = ((Ok result, t), d') ->
  exists publications,
    Legacy.get_all_publications fuel r query 10000 100 = (Ok publications, t)
    /\ (result, d') = Legacy.persist publications d.
Proof.
  unfold Legacy.main.
  destruct (Legacy.get_all_publications fuel r query 10000 100)
    as [[publications|e|] t'] eqn:E; try discriminate.
  destruct (Legacy.persist publications d) as [res d1] eqn:P.
  intros H; inversion H; subst. exists publications. now rewrite P.
Qed.

(** C5.  Every record [fetch_pubmed_details] produces has its flag set
    exactly when its link is present, and so has every row of the table
    the revised script leaves after a run. *)
Theorem flag_is_link_presence :
  (forall (r : remote) (ids : list (option string))
          (articles : list Current.Article),
      fst (Current.fetch_pubmed_details r ids) = Ok articles ->
      Forall link_flag_consistent articles)
  /\ (forall (fuel : nat) (r : remote) (d d' : disk Current.row)
             (result : Current.Summary) (t : list event),
         Current.main fuel r d = ((Ok result, t), d') ->
         Forall link_flag_consistent (disk_rows d')).
Proof.
  split.
  - intros r ids articles H.
    eapply current_fetch_inv; [|exact H]. apply current_parse_flag.
  - intros fuel r d d' result t H.
    destruct (current_main_Ok _ _ _ _ _ _ H) as (pubs & Hget & _ & ->).
    simpl. eapply current_get_all_inv; [apply current_parse_flag|].
    now rewrite Hget.
Qed.

(** C5, witness: a run of the revised script on the scenario service,
    from an empty directory. *)
Lemma flag_is_link_presence_witness :
  Forall link_flag_consistent
         (disk_rows (snd (Current.main 2 scenario_remote None)))
  /\ List.length (disk_rows (snd (Current.main 2 scenario_remote None))) = 2.
Proof.
  split; [|reflexivity].
  eapply (proj2 flag_is_link_presence 2 scenario_remote None).
  reflexivity.
Defined.

Lemma current_main_trace (fuel : nat) (r : remote) (d : disk Current.row) :
  snd (fst (Current.main fuel r d))
  = snd (Current.get_all_publications fuel r query 100 100).
Proof.
  unfold Current.main.
  destruct (Current.get_all_publications fuel r query 100 100)
    as [[pubs|e|] t]; reflexivity.
Qed.

Lemma current_main_Raise (fuel : nat) (r : remote) (d : disk Current.row)
      (e : error) :
  fst (Current.get_all_publications fuel r query 100 100) = Raise e ->
  fst (fst (Current.main fuel r d)) = Raise e /\
  snd (Current.main fuel r d) = d.
Proof.
  unfold Current.main.
  destruct (Current.get_all_publications fuel r query 100 100)
    as [[pubs|e'|] t]; simpl; try discriminate.
  intros H; inversion H. now split.
Qed.

(** C7.  In a run of the revised script, a request answered with a
    status other than 200 is the last event of the run: the outcome is
    the [RemoteError] of that endpoint and status, the request occurs
    nowhere else in the trace (it is not tried again), and the database
    file is the one the run started with (no row is inserted). *)
Theorem failed_request_aborts_run :
  forall (fuel : nat) (r : remote) (d : disk Current.row)
         (i : nat) (rq : request) (st : Z),
    nth_error (snd (fst (Current.main fuel r d))) i = Some (Get rq st) ->
    st <> 200%Z ->
    fst (fst (Current.main fuel r d)) = Raise (RemoteError (endpoint_of rq) st)
    /\ S i = List.length (snd (fst (Current.main fuel r d)))
    /\ (forall j st',
           nth_error (snd (fst (Current.main fuel r d))) j = Some (Get rq st') ->
           j = i)
    /\ snd (Current.main fuel r d) = d.
Proof.
  intros fuel r d i rq st Hi Hst.
  pose proof (current_get_all_fail_fast fuel r query 100 100) as Hff.
  rewrite current_main_trace in *.
  destruct (Hff i rq st Hi) as [Hans Hbad].
  destruct (Hbad Hst) as [Ho Hlen].
  destruct (current_main_Raise fuel r d _ Ho) as [Hm Hd].
  repeat split; trivial.
  intros j st' Hj.
  destruct (Hff j rq st' Hj) as [Hans' Hbad'].
  assert (Hst' : st' <> 200%Z) by congruence.
  destruct (Hbad' Hst') as [_ Hlen']. lia.
Qed.

(** C7, witness: the fetch endpoint answers 500 (scenario D); the run
    stops after the search and the one fetch request, and the file of
    the earlier run is untouched. *)
Lemma failed_request_aborts_run_witness :
  let r := paging_remote (Some "2") ["1"; "2"] (mkResponse 500 None) in
  Current.main 2 r earlier_disk
  = ((Raise (RemoteError EFetch 500),
      [Get (Search query 0 100) 200%Z; Get (Fetch "1,2") 500%Z]),
     earlier_disk).
Proof.
  intros r.
  destruct (failed_request_aborts_run 2 r earlier_disk 1 (Fetch "1,2") 500%Z)
    as (Ho & Hlen & _ & Hd).
  - reflexivity.
  - discriminate.
  - rewrite (surjective_pairing (Current.main 2 r earlier_disk)).
    rewrite (surjective_pairing (fst (Current.main 2 r earlier_disk))).
    rewrite Ho, Hd. reflexivity.
Defined.

(** ** The summary query *)

Lemma sum_indicator {A : Type} (f : A -> bool) (l : list A) :
  fold_right Z.add 0%Z (map (fun p => if f p then 1 else 0)%Z l)
  = Z.of_nat (List.length (filter f l)).
Proof.
  induction l as [|x l IH]; [reflexivity|].
  cbn [map fold_right filter]. rewrite IH.
  destruct (f x); cbn [List.length]; rewrite ?Nat2Z.inj_succ; lia.
Qed.

Lemma filter_negb_length {A : Type} (f : A -> bool) (l : list A) :
  List.length (filter (fun x => negb (f x)) l)
  = List.length l - List.length (filter f l).
Proof.
  induction l as [|x l IH]; [reflexivity|].
  pose proof (filter_length_le f l).
  cbn [filter]. destruct (f x); cbn [negb List.length]; rewrite IH; lia.
Qed.

Lemma sql_sum_indicator {A : Type} (f : A -> bool) (l : list A) :
  sql_sum (map (fun p => if f p then 1 else 0)%Z l)
  = match l with
    | [] => None
    | _ :: _ => Some (Z.of_nat (List.length (filter f l)))
    end.
Proof.
  destruct l as [|x l]; [reflexivity|].
  unfold sql_sum. rewrite <- sum_indicator. reflexivity.
Qed.

Lemma flagged_rows (rows : list Current.Article) :
  Forall link_flag_consistent rows ->
  filter Current.has_github_link rows
  = filter (fun a => is_not_None (Current.github_link a)) rows.
Proof.
  intros H. apply filter_ext_in. intros a Ha.
  rewrite Forall_forall in H. specialize (H a Ha).
  unfold link_flag_consistent in H.
  destruct (Current.has_github_link a), (Current.github_link a); simpl; trivial.
  - destruct H as [H _]. now specialize (H eq_refl).
  - destruct H as [_ H]. apply H. discriminate.
Qed.

(** C8 (the code departs from the claim on an empty table).  After a
    run of the revised script that ends normally, the table holds
    exactly the [N] records of the run and the summary is the query
    over that table: the total is [N]; for [N >= 1] the two sums are
    [K] and [N - K], [K] the number of rows with a link; for [N = 0]
    both sums are NULL, not 0. *)
Theorem summary_of_persisted_table :
  forall (fuel : nat) (r : remote) (d d' : disk Current.row)
         (result : Current.Summary) (t : list event),
    Current.main fuel r d = ((Ok result, t), d') ->
    let rows := disk_rows d' in
    let N := Z.of_nat (List.length rows) in
    let K := with_link rows in
    fst (Current.get_all_publications fuel r query 100 100) = Ok rows
    /\ d' = Some (mkDatabase (Some rows))
    /\ result = Current.summary_query (mkDatabase (Some rows))
    /\ Current.total result = N
    /\ (rows <> [] ->
        Current.with_github result = Some K /\
        Current.without_github result = Some (N - K)%Z)
    /\ (rows = [] ->
        Current.with_github result = None /\
        Current.without_github result = None).
Proof.
  intros fuel r d d' result t H. cbv zeta.
  destruct (current_main_Ok _ _ _ _ _ _ H) as (pubs & Hget & Hres & Hd).
  subst d'.
  change (disk_rows (Some (mkDatabase (Some pubs)))) with pubs.
  assert (Hflag : Forall link_flag_consistent pubs).
  { eapply current_get_all_inv; [apply current_parse_flag|].
    now rewrite Hget. }
  split; [now rewrite Hget|]. split; [reflexivity|]. split; [exact Hres|].
  subst result. unfold Current.summary_query.
  cbn [Current.total Current.with_github Current.without_github
       table_rows publications].
  rewrite (sql_sum_indicator Current.has_github_link pubs).
  rewrite (sql_sum_indicator (fun p => negb (Current.has_github_link p)) pubs).
  split; [reflexivity|]. split.
  - intros Hne. destruct pubs as [|p pubs]; [now elim Hne|].
    rewrite filter_negb_length, (flagged_rows _ Hflag).
    unfold with_link.
    pose proof (filter_length_le
                  (fun a => is_not_None (Current.github_link a)) (p :: pubs)).
    split; [reflexivity|]. f_equal. now apply Nat2Z.inj_sub.
  - intros ->. split; reflexivity.
Qed.

(** C8, witness: a query without results.  The run ends normally, the
    table is empty, and the two sums of the summary are NULL. *)
Lemma summary_of_persisted_table_witness :
  Current.main 1 empty_remote None
  = ((Ok (Current.mkSummary 0 None None), [Get (Search query 0 100) 200%Z]),
     Some (mkDatabase (Some [])))
  /\ Current.with_github (Current.mkSummary 0 None None) = None
  /\ Current.without_github (Current.mkSummary 0 None None) = None.
Proof.
  assert (Hrun : Current.main 1 empty_remote None
                 = ((Ok (Current.mkSummary 0 None None),
                     [Get (Search query 0 100) 200%Z]),
                    Some (mkDatabase (Some [])))) by reflexivity.
  split; [exact Hrun|].
  destruct (summary_of_persisted_table _ _ _ _ _ _ Hrun)
    as (_ & _ & _ & _ & _ & Hempty).
  apply Hempty. reflexivity.
Defined.

(** ** Two runs *)

(** C2 (the first script departs from the claim).  The revised script
    resets the file: a second run against the same service leaves the
    table of the first run.  The first script connects to the file it
    finds and appends: after a second run the table holds the rows of
    the first run followed by the same records once more. *)
Theorem second_run_rows :
  forall (fuel : nat) (r : remote),
    (forall (d d1 : disk Current.row) (result : Current.Summary)
            (t : list event),
        Current.main fuel r d = ((Ok result, t), d1) ->
        Current.main fuel r d1 = ((Ok result, t), d1))
    /\ (forall (d d1 : disk Legacy.row) (result : Legacy.Summary)
               (t : list event),
           Legacy.main fuel r d = ((Ok result, t), d1) ->
           exists result2 d2 publications,
             Legacy.main fuel r d1 = ((Ok result2, t), d2) /\
             disk_rows d1 = disk_rows d ++ publications /\
             disk_rows d2 = disk_rows d1 ++ publications).
Proof.
  intros fuel r. split.
  - intros d d1 result t H.
    destruct (current_main_Ok _ _ _ _ _ _ H) as (pubs & Hget & Hres & Hd).
    unfold Current.main. rewrite Hget.
    pose proof (current_persist_rows pubs d1) as Hr.
    pose proof (current_persist_summary pubs d1) as Hs.
    destruct (Current.persist pubs d1) as [res2 d2]. simpl in Hr, Hs.
    now subst.
  - intros d d1 result t H.
    destruct (legacy_main_Ok _ _ _ _ _ _ H) as (pubs & Hget & Hp).
    pose proof (legacy_persist_rows pubs d) as Hr1.
    rewrite <- Hp in Hr1. simpl in Hr1.
    pose proof (legacy_persist_rows pubs d1) as Hr2.
    unfold Legacy.main. rewrite Hget.
    destruct (Legacy.persist pubs d1) as [res2 d2]. simpl in Hr2.
    now exists res2, d2, pubs.
Qed.

(** C2, witness: the first script run twice on the scenario service,
    from an empty directory: two rows after the first run, four after
    the second. *)
Lemma second_run_rows_witness :
  let d1 := snd (Legacy.main 2 scenario_remote None) in
  let d2 := snd (Legacy.main 2 scenario_remote d1) in
  List.length (disk_rows d1) = 2 /\ List.length (disk_rows d2) = 4.
Proof.
  intros d1 d2.
  edestruct (proj2 (second_run_rows 2 scenario_remote) None d1)
    as (result2 & d2' & pubs & Hrun & H1 & H2); [reflexivity|].
  assert (Hd2 : d2 = d2') by (unfold d2; now rewrite Hrun).
  split; [reflexivity|].
  rewrite Hd2, H2, length_app.
  assert (Hp : pubs = disk_rows d1) by (simpl in H1; exact (eq_sym H1)).
  rewrite Hp. reflexivity.
Defined.


(** * Further properties of the scripts *)

(** ** The batches of the fetch loop *)

Lemma slice_from_skipn {A : Type} (l : list A) (i j b : nat) :
  slice l (j + i) (j + i + b) = slice (skipn j l) i (i + b).
Proof.
  unfold slice. replace (j + i + b - (j + i)) with b by lia.
  replace (i + b - i) with b by lia.
  now rewrite skipn_skipn, (Nat.add_comm i j).
Qed.

Lemma windows_from (A : Type) (fs : nat) :
  forall (k : nat) (l : list A),
    List.length l <= k * fs ->
    List.concat (map (fun i => slice l i (i + fs))
                     (map (fun j => j * fs) (seq 0 k))) = l.
Proof.
  induction k as [|k IH]; intros l Hl.
  - simpl in *. destruct l; [reflexivity | simpl in Hl; lia].
  - rewrite <- cons_seq, <- seq_shift. cbn [map List.concat].
    rewrite !map_map.
    rewrite (map_ext (fun x => slice l (S x * fs) (S x * fs + fs))
                     (fun x => slice (skipn fs l) (x * fs) (x * fs + fs))).
    2: { intros x. simpl. apply slice_from_skipn. }
    rewrite <- (map_map (fun j => j * fs)
                        (fun i => slice (skipn fs l) i (i + fs))).
    rewrite IH by (rewrite length_skipn; simpl in Hl; lia).
    unfold slice. simpl. replace (fs - 0) with fs by lia.
    apply firstn_skipn.
Qed.

Lemma ceil_bounds (n fs : nat) :
  0 < fs ->
  n <= ((n + fs - 1) / fs) * fs /\
  (forall k, k < (n + fs - 1) / fs -> k * fs < n).
Proof.
  intros Hfs.
  destruct (div_bounds (n + fs - 1) fs Hfs) as [D1 D2].
  split; [nia|]. intros k Hk. nia.
Qed.



(** ** A whole run on a consistent service *)

Lemma join_comma_Some (l : list string) :
  join_comma (map Some l) = ret (String.concat "," l).
Proof.
  induction l as [|x l IH]; [reflexivity|].
  destruct l as [|y l]; [reflexivity|].
  change (join_comma (map Some (x :: y :: l)))
    with (s <- join_comma (map Some (y :: l)) ;; ret (x ++ "," ++ s)%string).
  now rewrite IH, bind_ret.
Qed.

Lemma slice_map {A B : Type} (f : A -> B) (l : list A) (i j : nat) :
  slice (map f l) i j = map f (slice l i j).
Proof. unfold slice. now rewrite skipn_map, firstn_map. Qed.

Lemma for_each_map {A B : Type} (f : A -> M B) (g : A -> B)
      (t : A -> list event) (l : list A) :
  (forall x, In x l -> f x = (Ok (g x), t x)) ->
  for_each f l = (Ok (map g l), flat_map t l).
Proof.
  induction l as [|x l IH]; intros Hf; [reflexivity|].
  cbn [for_each]. rewrite (bind_Ok _ _ _ _ (Hf x (or_introl eq_refl))).
  rewrite IH by (intros y Hy; apply Hf; now right).
  unfold bind, ret. cbn [fst snd map flat_map]. now rewrite app_nil_r.
Qed.

Lemma filter_all {A : Type} (p : A -> bool) (l : list A) :
  (forall x, In x l -> p x = true) -> filter p l = l.
Proof.
  induction l as [|x l IH]; intros H; [reflexivity|].
  simpl. rewrite (H x (or_introl eq_refl)).
  f_equal. apply IH. intros y Hy. apply H. now right.
Qed.

Lemma findall_PubmedArticleSet (docs : list Element) :
  findall path_PubmedArticle (PubmedArticleSet docs)
  = filter (has_tag "PubmedArticle") docs.
Proof. unfold findall. simpl. now rewrite app_nil_r. Qed.

Lemma pages_cover (b : nat) (T : Z) (n : nat) :
  0 < b -> (Z.of_nat n <= T)%Z -> n <= b * pages_for b T.
Proof.
  intros Hb HT.
  destruct (Nat.le_gt_cases n (b * pages_for b T)) as [H|H]; trivial.
  assert (HT' : (Z.of_nat (pages_for b T * b) < T)%Z) by lia.
  pose proof (pages_for_lower b T (pages_for b T) Hb HT'). lia.
Qed.

Lemma windows_nonempty {A : Type} (l : list A) (fs : nat) (w : list A) :
  0 < fs -> In w (windows l fs) -> w <> [].
Proof.
  intros Hfs Hw.
  destruct (ceil_bounds (List.length l) fs Hfs) as [_ Hin].
  unfold windows in Hw. rewrite map_map in Hw.
  apply in_map_iff in Hw as (k & <- & Hk). apply in_seq in Hk.
  intros E. apply (f_equal (@List.length A)) in E.
  rewrite length_slice in E. simpl in E. specialize (Hin k). lia.
Qed.

Lemma slice_incl {A : Type} (l : list A) (i j : nat) (x : A) :
  In x (slice l i j) -> In x l.
Proof.
  unfold slice. intros H.
  rewrite <- (firstn_skipn i l). apply in_or_app. right.
  rewrite <- (firstn_skipn (j - i) (skipn i l)). apply in_or_app. now left.
Qed.

Lemma windows_incl {A : Type} (l : list A) (fs : nat) (w : list A) (x : A) :
  In w (windows l fs) -> In x w -> In x l.
Proof.
  intros Hw Hx. unfold windows in Hw. rewrite map_map in Hw.
  apply in_map_iff in Hw as (k & <- & _). now apply slice_incl in Hx.
Qed.

Lemma for_each_docs {A B C : Type} (f : B -> M C) (doc : A -> B) (g : A -> C)
      (l : list A) :
  (forall x, In x l -> f (doc x) = (Ok (g x), [])) ->
  for_each f (map doc l) = (Ok (map g l), []).
Proof.
  induction l as [|x l IH]; intros Hf; [reflexivity|].
  cbn [map for_each]. rewrite (Hf x (or_introl eq_refl)).
  rewrite IH by (intros y Hy; apply Hf; now right).
  reflexivity.
Qed.

Lemma flat_map_map {A B C : Type} (f : B -> list C) (g : A -> B) (l : list A) :
  flat_map f (map g l) = flat_map (fun x => f (g x)) l.
Proof. induction l as [|x l IH]; simpl; [reflexivity | now rewrite IH]. Qed.

Lemma py_range_pos (n fs : nat) :
  0 < fs ->
  py_range n fs = ret (map (fun k => k * fs) (seq 0 ((n + fs - 1) / fs))).
Proof. intros H. unfold py_range. destruct fs; [lia | reflexivity]. Qed.

Section ConsistentService.
Variables (r : remote) (q : string) (b fs : nat) (records : list string) (T : Z).
Variables (doc : string -> Element) (rec : string -> Current.Article).
Hypothesis b_pos : 0 < b.
Hypothesis fs_pos : 0 < fs.
Hypothesis served : serves_pages r q b records T.
Hypothesis counted : (Z.of_nat (List.length records) <= T)%Z.
Hypothesis fetched_batches :
  forall w, In w (windows records fs) ->
            r (Fetch (String.concat "," w)) = fetched (map doc w).
Hypothesis well_formed :
  forall id, In id records ->
             tag (doc id) = "PubmedArticle" /\
             Current.parse_article (doc id) = (Ok (rec id), []).

Lemma current_fetch_batch (w : list string) :
  In w (windows records fs) ->
  Current.fetch_pubmed_details r (map Some w)
  = (Ok (map rec w), [Get (Fetch (String.concat "," w)) 200%Z]).
Proof.
  intros Hw. pose proof (windows_nonempty _ _ _ fs_pos Hw) as Hne.
  unfold Current.fetch_pubmed_details.
  destruct w as [|x w]; [congruence|].
  change (Some x :: map Some w) with (map Some (x :: w)).
  rewrite join_comma_Some, bind_ret.
  unfold requests_get, bind at 1. rewrite (fetched_batches _ Hw).
  cbn [fetched status_code content Z.eqb Pos.eqb fromstring].
  rewrite bind_ret, findall_PubmedArticleSet.
  rewrite filter_all.
  2: { intros e He. apply in_map_iff in He as (id & <- & Hid).
       unfold has_tag.
       rewrite (proj1 (well_formed id (windows_incl _ _ _ _ Hw Hid))).
       reflexivity. }
  rewrite (for_each_docs Current.parse_article doc rec).
  2: { intros id Hid.
       apply (proj2 (well_formed id (windows_incl _ _ _ _ Hw Hid))). }
  reflexivity.
Qed.

Lemma current_fetch_all_consistent :
  Current.fetch_all r fs (map Some records)
  = (Ok (map rec records), fetch_requests (windows records fs)).
Proof.
  unfold Current.fetch_all. rewrite length_map, (py_range_pos _ _ fs_pos).
  rewrite bind_ret.
  rewrite (for_each_map _
             (fun i => map rec (slice records i (i + fs)))
             (fun i => [Get (Fetch (String.concat "," (slice records i (i + fs))))
                            200%Z; Sleep 1])).
  2: { intros i Hi.
       assert (Hw : In (slice records i (i + fs)) (windows records fs))
         by (unfold windows;
             exact (in_map (fun i => slice records i (i + fs)) _ _ Hi)).
       cbv zeta. rewrite slice_map, (current_fetch_batch _ Hw).
       reflexivity. }
  unfold bind, ret. rewrite app_nil_r. f_equal.
  - f_equal.
    rewrite <- (map_map (fun i => slice records i (i + fs)) (map rec)).
    fold (windows records fs). rewrite <- concat_map. f_equal.
    unfold windows. apply windows_from.
    apply (proj1 (ceil_bounds (List.length records) fs fs_pos)).
  - unfold fetch_requests, windows. now rewrite !flat_map_map.
Qed.

Lemma current_get_all_consistent (fuel : nat) :
  List.length records < fuel ->
  Current.get_all_publications fuel r q b fs
  = (Ok (map rec records),
     page_requests q b 0
       (Nat.min (pages_for b T) (List.length records / b + 1))
     ++ fetch_requests (windows records fs)).
Proof.
  intros Hfuel. unfold Current.get_all_publications.
  rewrite (bind_Ok _ _ _ _
             (current_pager_pages r q b records T b_pos served fuel Hfuel)).
  rewrite firstn_all2 by (now apply pages_cover).
  now rewrite current_fetch_all_consistent.
Qed.
End ConsistentService.

(** X3.  On a service that is consistent with itself (it serves [n]
    records as pages, counts at least [n], and answers the fetch of
    every batch with one well-formed [PubmedArticle] per identifier of
    the batch), [get_all_publications] of the revised script ends
    normally for every fuel above [n] and returns one record per
    identifier, in the order of the identifiers; its trace is the page
    requests followed by one fetch request per batch, each followed by
    its sleep.  The script then leaves a file whose table holds exactly
    these records. *)
Theorem run_on_consistent_service :
  forall (r : remote) (q : string) (b fs : nat) (records : list string) (T : Z)
         (doc : string -> Element) (rec : string -> Current.Article)
         (fuel : nat),
    0 < b -> 0 < fs ->
    serves_pages r q b records T ->
    (Z.of_nat (List.length records) <= T)%Z ->
    (forall w, In w (windows records fs) ->
               r (Fetch (String.concat "," w)) = fetched (map doc w)) ->
    (forall id, In id records ->
                tag (doc id) = "PubmedArticle" /\
                Current.parse_article (doc id) = (Ok (rec id), [])) ->
    List.length records < fuel ->
    let trace :=
      page_requests q b 0
        (Nat.min (pages_for b T) (List.length records / b + 1))
      ++ fetch_requests (windows records fs) in
    let table := mkDatabase (Some (map rec records)) in
    Current.get_all_publications fuel r q b fs = (Ok (map rec records), trace)
    /\ (q = query -> b = 100 -> fs = 100 ->
        forall d,
          Current.main fuel r d
          = ((Ok (Current.summary_query table), trace), Some table)).
Proof.
  intros r q b fs records T doc rec fuel Hb Hfs Hserved HT Hfetch Hdoc Hfuel
         trace table.
  pose proof (current_get_all_consistent r q b fs records T doc rec
                Hb Hfs Hserved HT Hfetch Hdoc fuel Hfuel) as Hget.
  split; [exact Hget|].
  intros -> -> -> d. unfold Current.main. rewrite Hget.
  pose proof (current_persist_rows (map rec records) d) as Hrows.
  pose proof (current_persist_summary (map rec records) d) as Hsum.
  destruct (Current.persist (map rec records) d) as [res d'].
  simpl in Hrows, Hsum. now subst.
Qed.

(** X3, witness: the scenario service, its two records fetched in one
    batch. *)
Lemma run_on_consistent_service_witness :
  Current.main 3 scenario_remote None
  = ((Ok (Current.mkSummary 2 (Some 1%Z) (Some 1%Z)),
      [Get (Search query 0 100) 200%Z; Get (Fetch "1,2") 200%Z; Sleep 1]),
     Some (mkDatabase (Some (map scenario_record ["1"; "2"])))).
Proof.
  refine (proj2 (run_on_consistent_service
                   scenario_remote query 100 100 ["1"; "2"] 2
                   scenario_doc scenario_record 3
                   (Nat.lt_0_succ 99) (Nat.lt_0_succ 99) _ _ _ _ _)
                eq_refl eq_refl eq_refl None).
  - apply paging_remote_serves. reflexivity.
  - simpl. lia.
  - intros w [<-|[]]. reflexivity.
  - intros id [<-|[<-|[]]]; split; reflexivity.
  - simpl. lia.
Defined.

(** ** The pace of the page requests *)

Lemma current_search_not_cut (r : remote) (q : string) (start b : nat) :
  fst (Current.search_pubmed r q start b) <> OutOfFuel.
Proof.
  unfold Current.search_pubmed, requests_get, bind.
  destruct (status_code (r (Search q start b)) =? 200)%Z; [|discriminate].
  destruct (content (r (Search q start b))) as [root|]; simpl; [|discriminate].
  destruct (find path_Count root) as [c|]; simpl; [|discriminate].
  destruct (text c) as [x|]; simpl; [|discriminate].
  destruct (int_of_string x); discriminate.
Qed.

Lemma legacy_search_trace (r : remote) (q : string) (start b : nat) :
  snd (Legacy.search_pubmed r q start b)
  = [Get (Search q start b) (status_code (r (Search q start b)))]
  /\ fst (Legacy.search_pubmed r q start b) <> OutOfFuel
  /\ (forall ids, fst (Legacy.search_pubmed r q start b) = Ok ids ->
                  status_code (r (Search q start b)) = 200%Z).
Proof.
  unfold Legacy.search_pubmed, requests_get, bind.
  destruct (status_code (r (Search q start b)) =? 200)%Z eqn:E.
  - apply Z.eqb_eq in E.
    destruct (content (r (Search q start b))) as [root|]; simpl;
      repeat split; trivial; discriminate.
  - repeat split; discriminate.
Qed.

Lemma paced_stop {A : Type} (r : remote) (q : string) (b start fuel : nat)
      (o : outcome A) :
  o <> OutOfFuel ->
  paced r q b start (S fuel)
        (o, [Get (Search q start b) (status_code (r (Search q start b)))]).
Proof.
  intros Ho. exists [status_code (r (Search q start b))].
  split; [simpl; lia|]. split; [|split].
  - destruct o; simpl; trivial. congruence.
  - constructor.
  - intros [|k] st H; simpl in H; [|now destruct k].
    inversion H. now rewrite Nat.add_0_r.
Qed.

(** One more request in front of a paced trace. *)
Lemma paced_more {A : Type} (r : remote) (q : string) (b start fuel : nat)
      (m : M A) :
  status_code (r (Search q start b)) = 200%Z ->
  (snd m = [] -> fst m = OutOfFuel) ->
  paced r q b (start + b) fuel m ->
  paced r q b start (S fuel)
        (fst m, Get (Search q start b) 200%Z :: Sleep 1 :: snd m).
Proof.
  intros Hst Hnil (sts & Hlen & Htr & H200 & Hnth).
  exists (200%Z :: sts). split; [simpl; lia|]. split; [|split].
  - cbn [fst snd]. rewrite Htr. destruct sts as [|s sts]; [|reflexivity].
    simpl in Htr. rewrite (Hnil Htr). reflexivity.
  - destruct sts as [|s sts]; [constructor|].
    change (removelast (200%Z :: s :: sts))
      with (200%Z :: removelast (s :: sts)).
    now constructor.
  - intros [|k] st H; simpl in H.
    + inversion H. now rewrite Nat.add_0_r, Hst.
    + rewrite (Hnth k st H). do 3 f_equal. simpl. lia.
Qed.

Lemma current_pager_trace_nil (fuel : nat) (r : remote) (q : string) (b : nat)
      (acc : list (option string)) (start : nat) (tc : option Z) :
  snd (Current.pager fuel r q b acc start tc) = [] ->
  fst (Current.pager fuel r q b acc start tc) = OutOfFuel.
Proof.
  destruct fuel as [|fuel]; [reflexivity|].
  rewrite current_pager_S.
  pose proof (current_search_trace r q start b) as Ht.
  destruct (Current.search_pubmed r q start b) as [[[ids c]|e|] t];
    simpl in Ht; subst t; unfold bind at 1; try discriminate.
  match goal with
  | |- context [let (_, _) := ?m in _] => destruct m
  end.
  discriminate.
Qed.

Lemma current_pager_paced (r : remote) (q : string) (b : nat) :
  forall fuel acc start tc,
    paced r q b start fuel (Current.pager fuel r q b acc start tc).
Proof.
  induction fuel as [|fuel IH]; intros acc start tc.
  - exists []. repeat split; try constructor; trivial.
    intros [|k] st H; discriminate.
  - rewrite current_pager_S.
    pose proof (current_search_trace r q start b) as Ht.
    pose proof (current_search_not_cut r q start b) as Hcut.
    pose proof (current_search_Ok_status r q start b) as Hst.
    destruct (Current.search_pubmed r q start b) as [[[ids c]|e|] t];
      simpl in Ht, Hcut; subst t; [| |congruence].
    + specialize (Hst _ eq_refl).
      unfold bind at 1. cbv beta iota zeta.
      destruct (match tc with None => c | Some _ => tc end) as [z|] eqn:Etc;
        unfold len_ge.
      * rewrite bind_ret.
        destruct ((z <=? Z.of_nat (List.length (acc ++ ids)))%Z
                  || (List.length ids <? b)%nat).
        -- apply paced_stop. discriminate.
        -- unfold time_sleep, bind at 1.
           pose proof (paced_more r q b start fuel _ Hst
                         (current_pager_trace_nil fuel r q b (acc ++ ids)
                            (start + b) (Some z))
                         (IH (acc ++ ids) (start + b) (Some z))) as H.
           destruct (Current.pager fuel r q b (acc ++ ids) (start + b) (Some z))
             as [o t'].
           rewrite Hst. exact H.
      * apply paced_stop. discriminate.
    + unfold bind. apply paced_stop. discriminate.
Qed.

Lemma legacy_pager_trace_nil (fuel : nat) (r : remote) (q : string) (b : nat)
      (acc : list (option string)) (start : nat) :
  snd (Legacy.pager fuel r q b acc start) = [] ->
  fst (Legacy.pager fuel r q b acc start) = OutOfFuel.
Proof.
  destruct fuel as [|fuel]; [reflexivity|].
  rewrite legacy_pager_S.
  destruct (legacy_search_trace r q start b) as (Ht & _ & _).
  destruct (Legacy.search_pubmed r q start b) as [[ids|e|] t];
    simpl in Ht; subst t; unfold bind at 1; try discriminate.
  match goal with
  | |- context [let (_, _) := ?m in _] => destruct m
  end.
  discriminate.
Qed.

Lemma legacy_pager_paced (r : remote) (q : string) (b : nat) :
  forall fuel acc start,
    paced r q b start fuel (Legacy.pager fuel r q b acc start).
Proof.
  induction fuel as [|fuel IH]; intros acc start.
  - exists []. repeat split; try constructor; trivial.
    intros [|k] st H; discriminate.
  - rewrite legacy_pager_S.
    destruct (legacy_search_trace r q start b) as (Ht & Hcut & Hst).
    destruct (Legacy.search_pubmed r q start b) as [[ids|e|] t];
      simpl in Ht, Hcut; subst t; [| |congruence].
    + specialize (Hst _ eq_refl).
      unfold bind at 1. cbv beta iota zeta.
      destruct (List.length ids <? b)%nat.
      * apply paced_stop. discriminate.
      * unfold time_sleep, bind at 1.
        pose proof (paced_more r q b start fuel _ Hst
                      (legacy_pager_trace_nil fuel r q b (acc ++ ids)
                         (start + b))
                      (IH (acc ++ ids) (start + b))) as H.
        destruct (Legacy.pager fuel r q b (acc ++ ids) (start + b)) as [o t'].
        rewrite Hst. exact H.
    + unfold bind. apply paced_stop. discriminate.
Qed.

(** X4.  Whatever the service answers, the pager loops of both scripts
    advance the cursor by the page size: the k-th request asks for
    [batch_size] identifiers from offset [k * batch_size]; two
    successive page requests are separated by exactly one sleep of one
    second; and a page is requested only after every earlier page was
    answered with 200. *)
Theorem pager_requests_are_paced :
  forall (fuel : nat) (r : remote) (q : string) (batch_size : nat),
    paced r q batch_size 0 fuel (Current.pager fuel r q batch_size [] 0 None)
    /\ paced r q batch_size 0 fuel (Legacy.pager fuel r q batch_size [] 0).
Proof.
  intros fuel r q b. split.
  - apply current_pager_paced.
  - apply legacy_pager_paced.
Qed.

(** ** From the last page to the first batch *)

Lemma bind_trace_prefix {A B : Type} (m : M A) (f : A -> M B) :
  exists t', snd (bind m f) = snd m ++ t'.
Proof.
  destruct m as [[a|e|] t]; simpl.
  - destruct (f a) as [o t']. now exists t'.
  - exists []. now rewrite app_nil_r.
  - exists []. now rewrite app_nil_r.
Qed.

Lemma current_pager_Ok_last (r : remote) (q : string) (b : nat) :
  forall fuel acc start tc ids t,
    Current.pager fuel r q b acc start tc = (Ok ids, t) ->
    exists t0 start', t = t0 ++ [Get (Search q start' b) 200%Z].
Proof.
  induction fuel as [|fuel IH]; intros acc start tc ids t H; [discriminate|].
  rewrite current_pager_S in H.
  pose proof (current_search_trace r q start b) as Ht.
  pose proof (current_search_Ok_status r q start b) as Hst.
  destruct (Current.search_pubmed r q start b) as [[[page c]|e|] t1];
    simpl in Ht; subst t1; try discriminate.
  rewrite (Hst _ eq_refl) in H.
  unfold bind at 1 in H. cbv beta iota zeta in H.
  destruct (match tc with None => c | Some _ => tc end) as [z|];
    unfold len_ge in H; [|discriminate].
  rewrite bind_ret in H.
  destruct ((z <=? Z.of_nat (List.length (acc ++ page)))%Z
            || (List.length page <? b)%nat).
  - inversion H; subst. now exists [], start.
  - unfold time_sleep, bind at 1 in H.
    destruct (Current.pager fuel r q b (acc ++ page) (start + b) (Some z))
      as [o t'] eqn:E.
    inversion H; subst.
    destruct (IH _ _ _ _ _ E) as (t0 & start' & ->).
    now exists (Get (Search q start b) 200%Z :: Sleep 1 :: t0), start'.
Qed.

Lemma legacy_pager_Ok_last (r : remote) (q : string) (b : nat) :
  forall fuel acc start ids t,
    Legacy.pager fuel r q b acc start = (Ok ids, t) ->
    exists t0 start', t = t0 ++ [Get (Search q start' b) 200%Z].
Proof.
  induction fuel as [|fuel IH]; intros acc start ids t H; [discriminate|].
  rewrite legacy_pager_S in H.
  destruct (legacy_search_trace r q start b) as (Ht & _ & Hst).
  destruct (Legacy.search_pubmed r q start b) as [[page|e|] t1];
    simpl in Ht; subst t1; try discriminate.
  rewrite (Hst _ eq_refl) in H.
  unfold bind at 1 in H. cbv beta iota zeta in H.
  destruct (List.length page <? b)%nat.
  - inversion H; subst. now exists [], start.
  - unfold time_sleep, bind at 1 in H.
    destruct (Legacy.pager fuel r q b (acc ++ page) (start + b))
      as [o t'] eqn:E.
    inversion H; subst.
    destruct (IH _ _ _ _ E) as (t0 & start' & ->).
    now exists (Get (Search q start b) 200%Z :: Sleep 1 :: t0), start'.
Qed.

Lemma first_index (n fs : nat) :
  0 < n -> 0 < fs ->
  exists rest,
    map (fun k => k * fs) (seq 0 ((n + fs - 1) / fs)) = 0 :: rest.
Proof.
  intros Hn Hfs.
  destruct (ceil_bounds n fs Hfs) as [Hc _].
  destruct ((n + fs - 1) / fs) as [|c]; [simpl in Hc; lia|].
  simpl. eauto.
Qed.

Lemma join_comma_trace (ids : list (option string)) :
  snd (join_comma ids) = [].
Proof.
  induction ids as [|[x|] l IH]; simpl; trivial.
  destruct l as [|y l]; [reflexivity|].
  destruct (join_comma (y :: l)) as [[s|e|] t]; simpl in *; now subst.
Qed.

Lemma current_fetch_all_first (r : remote) (fs : nat)
      (ids : list (option string)) (s : string) :
  0 < fs -> ids <> [] ->
  fst (join_comma (firstn fs ids)) = Ok s ->
  exists rest,
    snd (Current.fetch_all r fs ids)
    = Get (Fetch s) (status_code (r (Fetch s))) :: rest.
Proof.
  intros Hfs Hne Hjoin.
  assert (Hn : 0 < List.length ids) by (destruct ids; [congruence | simpl; lia]).
  destruct (first_index _ _ Hn Hfs) as (rest & Hidx).
  unfold Current.fetch_all. rewrite (py_range_pos _ _ Hfs), bind_ret, Hidx.
  match goal with
  | |- context [snd (bind ?m ?f)] =>
      destruct (bind_trace_prefix m f) as (t1 & ->)
  end.
  cbn [for_each].
  match goal with
  | |- context [snd (bind ?m ?f)] =>
      destruct (bind_trace_prefix m f) as (t2 & ->)
  end.
  cbv zeta.
  match goal with
  | |- context [snd (bind ?m ?f)] =>
      destruct (bind_trace_prefix m f) as (t3 & ->)
  end.
  assert (Hslice : slice ids 0 (0 + fs) = firstn fs ids)
    by (unfold slice; simpl; now rewrite Nat.sub_0_r).
  rewrite Hslice.
  unfold Current.fetch_pubmed_details.
  destruct (firstn fs ids) as [|i batch] eqn:Eb.
  - destruct ids; [congruence|]. destruct fs; [lia | discriminate].
  - pose proof (join_comma_trace (i :: batch)) as Htj.
    destruct (join_comma (i :: batch)) as [o tj].
    simpl in Hjoin, Htj. subst o tj.
    change (@Ok string s, @nil event) with (ret s). rewrite bind_ret.
    match goal with
    | |- context [snd (bind ?m ?f)] =>
        destruct (bind_trace_prefix m f) as (t4 & ->)
    end.
    simpl. eauto.
Qed.

Lemma legacy_fetch_all_first (r : remote) (fs : nat)
      (ids : list (option string)) (s : string) :
  0 < fs -> ids <> [] ->
  fst (join_comma (firstn fs ids)) = Ok s ->
  exists rest,
    snd (Legacy.fetch_all r fs ids)
    = Get (Fetch s) (status_code (r (Fetch s))) :: rest.
Proof.
  intros Hfs Hne Hjoin.
  assert (Hn : 0 < List.length ids) by (destruct ids; [congruence | simpl; lia]).
  destruct (first_index _ _ Hn Hfs) as (rest & Hidx).
  unfold Legacy.fetch_all. rewrite (py_range_pos _ _ Hfs), bind_ret, Hidx.
  match goal with
  | |- context [snd (bind ?m ?f)] =>
      destruct (bind_trace_prefix m f) as (t1 & ->)
  end.
  cbn [for_each].
  match goal with
  | |- context [snd (bind ?m ?f)] =>
      destruct (bind_trace_prefix m f) as (t2 & ->)
  end.
  cbv zeta.
  match goal with
  | |- context [snd (bind ?m ?f)] =>
      destruct (bind_trace_prefix m f) as (t3 & ->)
  end.
  assert (Hslice : slice ids 0 (0 + fs) = firstn fs ids)
    by (unfold slice; simpl; now rewrite Nat.sub_0_r).
  rewrite Hslice.
  unfold Legacy.fetch_pubmed_details.
  destruct (firstn fs ids) as [|i batch] eqn:Eb.
  - destruct ids; [congruence|]. destruct fs; [lia | discriminate].
  - pose proof (join_comma_trace (i :: batch)) as Htj.
    destruct (join_comma (i :: batch)) as [o tj].
    simpl in Hjoin, Htj. subst o tj.
    change (@Ok string s, @nil event) with (ret s). rewrite bind_ret.
    match goal with
    | |- context [snd (bind ?m ?f)] =>
        destruct (bind_trace_prefix m f) as (t4 & ->)
    end.
    simpl. eauto.
Qed.

(** X5.  There is no sleep between the search phase and the fetch
    phase: when the pager returns a non-empty identifier list whose
    first batch can be joined, the request of the first batch follows
    the last page request directly in the trace of
    [get_all_publications], in both scripts. *)
Theorem first_fetch_follows_last_page :
  forall (fuel : nat) (r : remote) (q : string) (b fs : nat)
         (ids : list (option string)) (t : list event) (s : string),
    0 < fs -> ids <> [] ->
    fst (join_comma (firstn fs ids)) = Ok s ->
    (Current.pager fuel r q b [] 0 None = (Ok ids, t) ->
     exists t0 start rest,
       snd (Current.get_all_publications fuel r q b fs)
       = t0 ++ Get (Search q start b) 200%Z
            :: Get (Fetch s) (status_code (r (Fetch s))) :: rest)
    /\ (Legacy.pager fuel r q b [] 0 = (Ok ids, t) ->
        exists t0 start rest,
          snd (Legacy.get_all_publications fuel r q b fs)
          = t0 ++ Get (Search q start b) 200%Z
               :: Get (Fetch s) (status_code (r (Fetch s))) :: rest).
Proof.
  intros fuel r q b fs ids t s Hfs Hne Hjoin. split; intros Hp.
  - destruct (current_pager_Ok_last _ _ _ _ _ _ _ _ _ Hp) as (t0 & start & ->).
    destruct (current_fetch_all_first r fs ids s Hfs Hne Hjoin) as (rest & Hf).
    exists t0, start, rest.
    unfold Current.get_all_publications.
    rewrite (bind_Ok _ _ _ _ Hp). cbn [snd]. rewrite Hf.
    now rewrite <- app_assoc.
  - destruct (legacy_pager_Ok_last _ _ _ _ _ _ _ _ Hp) as (t0 & start & ->).
    destruct (legacy_fetch_all_first r fs ids s Hfs Hne Hjoin) as (rest & Hf).
    exists t0, start, rest.
    unfold Legacy.get_all_publications.
    rewrite (bind_Ok _ _ _ _ Hp). cbn [snd]. rewrite Hf.
    now rewrite <- app_assoc.
Qed.

(** X5, witness: the scenario service; the fetch of ["1,2"] comes
    right after the only page request. *)
Lemma first_fetch_follows_last_page_witness :
  exists t0 start rest,
    snd (Current.get_all_publications 3 scenario_remote query 100 100)
    = t0 ++ Get (Search query start 100) 200%Z
         :: Get (Fetch "1,2") 200%Z :: rest.
Proof.
  assert (Hne : [Some "1"; Some "2"] <> []) by discriminate.
  exact (proj1 (first_fetch_follows_last_page
                  3 scenario_remote query 100 100
                  [Some "1"; Some "2"] [Get (Search query 0 100) 200%Z] "1,2"
                  (Nat.lt_0_succ 99) Hne eq_refl) eq_refl).
Defined.

(** ** Termination of the pager loops *)

Lemma fst_bind_cut {A B : Type} (m : M A) (f : A -> M B) :
  fst (bind m f) <> OutOfFuel ->
  fst m <> OutOfFuel /\ forall a, fst m = Ok a -> fst (f a) <> OutOfFuel.
Proof.
  destruct m as [[a|e|] t]; simpl.
  - destruct (f a) as [o t'] eqn:E. simpl. intros H. split; [discriminate|].
    intros a' Ha. inversion Ha; subst. now rewrite E.
  - intros _. split; [discriminate | discriminate].
  - congruence.
Qed.

Lemma bind_ext {A B : Type} (m : M A) (f g : A -> M B) :
  (forall a, fst m = Ok a -> f a = g a) -> bind m f = bind m g.
Proof.
  destruct m as [[a|e|] t]; simpl; trivial.
  intros H. now rewrite (H a eq_refl).
Qed.

(** More fuel does not change a loop that ended. *)
Lemma current_pager_more_fuel (r : remote) (q : string) (b : nat) :
  forall fuel acc start tc k,
    fst (Current.pager fuel r q b acc start tc) <> OutOfFuel ->
    Current.pager (fuel + k) r q b acc start tc
    = Current.pager fuel r q b acc start tc.
Proof.
  induction fuel as [|fuel IH]; intros acc start tc k H; [now elim H|].
  change (S fuel + k) with (S (fuel + k)).
  rewrite !current_pager_S in *.
  apply fst_bind_cut in H as [_ H].
  apply bind_ext. intros [ids c] Hp. specialize (H _ Hp).
  cbv beta iota zeta in *.
  apply fst_bind_cut in H as [_ H].
  apply bind_ext. intros reached Hr. specialize (H _ Hr).
  cbv beta in *.
  destruct (reached || (List.length ids <? b)%nat); [reflexivity|].
  apply fst_bind_cut in H as [_ H].
  apply bind_ext. intros u Hu. specialize (H _ Hu).
  now apply IH.
Qed.

Section CountBound.
Variables (r : remote) (q : string) (b : nat) (T : Z).
Hypothesis b_pos : 0 < b.

(** After [j] full pages, [pages_for b T - j] iterations are enough. *)
Lemma current_pager_bounded :
  forall fuel acc start j,
    j * b <= List.length acc ->
    pages_for b T <= fuel + j ->
    1 <= fuel ->
    fst (Current.pager fuel r q b acc start (Some T)) <> OutOfFuel.
Proof.
  induction fuel as [|fuel IH]; intros acc start j Hacc Hfuel H1; [lia|].
  rewrite current_pager_S.
  pose proof (current_search_not_cut r q start b) as Hcut.
  destruct (Current.search_pubmed r q start b) as [[[ids c]|e|] t];
    [|discriminate|now elim Hcut].
  unfold bind at 1. cbv beta iota zeta. unfold len_ge. rewrite bind_ret.
  destruct ((T <=? Z.of_nat (List.length (acc ++ ids)))%Z
            || (List.length ids <? b)%nat) eqn:Stop; [discriminate|].
  apply orb_false_iff in Stop as [Hr Hs].
  apply Z.leb_gt in Hr. apply Nat.ltb_ge in Hs.
  rewrite length_app in Hr.
  assert (Hnext : (Z.of_nat (S j * b) < T)%Z) by (simpl; lia).
  pose proof (pages_for_lower b T (S j) b_pos Hnext) as P.
  unfold time_sleep, bind at 1.
  specialize (IH (acc ++ ids) (start + b) (S j)).
  destruct (Current.pager fuel r q b (acc ++ ids) (start + b) (Some T))
    as [o t'].
  simpl in *. apply IH; [rewrite length_app; lia | lia | lia].
Qed.
End CountBound.

Lemma current_pager_within_count (r : remote) (q : string) (b : nat) (T : Z)
      (ids0 : list (option string)) :
  0 < b ->
  fst (Current.search_pubmed r q 0 b) = Ok (ids0, Some T) ->
  fst (Current.pager (pages_for b T) r q b [] 0 None) <> OutOfFuel.
Proof.
  intros Hb Hpage. pose proof (pages_for_pos b T) as P1.
  destruct (pages_for b T) as [|P'] eqn:EP; [lia|].
  rewrite current_pager_S.
  rewrite (bind_Ok _ _ _ _ (current_search_Ok _ _ _ _ _ Hpage)).
  cbv beta iota zeta. cbn [fst]. unfold len_ge. rewrite bind_ret.
  cbn [app].
  destruct ((T <=? Z.of_nat (List.length ids0))%Z
            || (List.length ids0 <? b)%nat) eqn:Stop; [discriminate|].
  apply orb_false_iff in Stop as [Hr Hs].
  apply Z.leb_gt in Hr. apply Nat.ltb_ge in Hs.
  assert (Hnext : (Z.of_nat (1 * b) < T)%Z) by lia.
  pose proof (pages_for_lower b T 1 Hb Hnext) as P2.
  pose proof (current_pager_bounded r q b T Hb P' ids0 (0 + b) 1) as Hbound.
  unfold time_sleep, bind.
  destruct (Current.pager P' r q b ids0 (0 + b) (Some T)) as [o t'].
  simpl in *. apply Hbound; lia.
Qed.

(** X6.  The count check bounds the loop of the revised script whatever
    the service does afterwards: once the first page was answered with
    the count [T], the loop ends (normally or with an exception) within
    [max 1 (ceil (T / batch_size))] page requests, and more fuel does
    not change its result. *)
Theorem pager_ends_within_the_count :
  forall (r : remote) (q : string) (b : nat) (T : Z)
         (ids0 : list (option string)) (fuel : nat),
    0 < b ->
    fst (Current.search_pubmed r q 0 b) = Ok (ids0, Some T) ->
    pages_for b T <= fuel ->
    fst (Current.pager fuel r q b [] 0 None) <> OutOfFuel
    /\ Current.pager fuel r q b [] 0 None
       = Current.pager (pages_for b T) r q b [] 0 None
    /\ exists sts,
        List.length sts <= pages_for b T /\
        snd (Current.pager fuel r q b [] 0 None)
        = paced_requests q b 0 sts false.
Proof.
  intros r q b T ids0 fuel Hb Hpage Hfuel.
  pose proof (current_pager_within_count r q b T ids0 Hb Hpage) as Hend.
  assert (Heq : Current.pager fuel r q b [] 0 None
                = Current.pager (pages_for b T) r q b [] 0 None).
  { replace fuel with (pages_for b T + (fuel - pages_for b T)) by lia.
    now apply current_pager_more_fuel. }
  rewrite Heq. split; [exact Hend|]. split; [reflexivity|].
  destruct (current_pager_paced r q b (pages_for b T) [] 0 None)
    as (sts & Hlen & Htr & _).
  exists sts. split; [exact Hlen|]. rewrite Htr.
  destruct (fst (Current.pager (pages_for b T) r q b [] 0 None));
    [reflexivity | reflexivity | now elim Hend].
Qed.

(** X6, witness: five records counted as 3, in pages of 2: two page
    requests. *)
Lemma pager_ends_within_the_count_witness :
  let r := paging_remote (Some "3") ["1"; "2"; "3"; "4"; "5"]
                         (mkResponse 200 None) in
  fst (Current.pager 50 r query 2 [] 0 None) <> OutOfFuel
  /\ Current.pager 50 r query 2 [] 0 None = Current.pager 2 r query 2 [] 0 None.
Proof.
  intros r.
  destruct (pager_ends_within_the_count
              r query 2 3 [Some "1"; Some "2"] 50 (Nat.lt_0_succ 1) eq_refl)
    as (H1 & H2 & _).
  - vm_compute. lia.
  - split; [exact H1 | exact H2].
Defined.

Lemma legacy_pager_S_full (fuel : nat) (r : remote) (q : string) (b : nat)
      (acc : list (option string)) (start : nat) (ids : list (option string)) :
  fst (Legacy.search_pubmed r q start b) = Ok ids ->
  b <= List.length ids ->
  fst (Legacy.pager (S fuel) r q b acc start)
  = fst (Legacy.pager fuel r q b (acc ++ ids) (start + b)).
Proof.
  intros Hp Hfull. rewrite legacy_pager_S, (fst_bind _ _ _ Hp).
  cbv zeta. apply Nat.ltb_ge in Hfull. rewrite Hfull.
  now rewrite (fst_bind _ _ tt).
Qed.

(** X7.  The loop of the first script has the short page as its only
    exit: on a service that answers every page request with at least
    [batch_size] identifiers it never ends, whatever the fuel.  With
    [batch_size = 0] this is every service that answers 200 with a
    well-formed body. *)
Theorem legacy_pager_needs_a_short_page :
  forall (r : remote) (q : string) (b : nat),
    (forall start,
        exists ids,
          fst (Legacy.search_pubmed r q start b) = Ok ids /\
          b <= List.length ids) ->
    forall fuel acc start,
      fst (Legacy.pager fuel r q b acc start) = OutOfFuel.
Proof.
  intros r q b Hfull.
  induction fuel as [|fuel IH]; intros acc start; [reflexivity|].
  destruct (Hfull start) as (ids & Hp & Hlen).
  rewrite (legacy_pager_S_full _ _ _ _ _ _ _ Hp Hlen). apply IH.
Qed.

(** X7, witness: a service that answers every page request with the
    same two identifiers, asked in pages of two. *)
Lemma legacy_pager_needs_a_short_page_witness :
  fst (Legacy.pager 40 (repeating_remote ["1"; "2"]) query 2 [] 0) = OutOfFuel.
Proof.
  apply legacy_pager_needs_a_short_page.
  intros start. exists [Some "1"; Some "2"]. split; [reflexivity | simpl; lia].
Defined.

(** ** The extent of an extracted link *)

Lemma plus_class_maximal (p : ascii -> bool) (s rest : string) :
  plus_class p s (fun x => Some x) = Some rest -> ends_run p rest.
Proof.
  revert rest; induction s as [|c s IH]; intros rest H; simpl in H;
    [discriminate|].
  destruct (p c); [|discriminate].
  destruct (plus_class p s (fun x => Some x)) as [y|] eqn:E.
  - inversion H; subst. now apply IH.
  - inversion H; subst. destruct rest as [|d rest]; simpl; trivial.
    simpl in E. destruct (p d); [|reflexivity].
    now destruct (plus_class p rest (fun x => Some x)).
Qed.

Lemma matchk_seq_inv {A : Type} (r1 r2 : regex) (s : string)
      (k : string -> option A) (x : A) :
  matchk (Seq r1 r2) s k = Some x ->
  exists rest, matchk r2 rest k = Some x.
Proof.
  intros H.
  destruct (matchk_sound r1 s (fun s' => matchk r2 s' k) x H)
    as (m & rest & _ & _ & Hk).
  now exists rest.
Qed.

Lemma github_match_maximal (s rest : string) :
  matchk github_regex s (fun x => Some x) = Some rest ->
  ends_run not_space_slash rest.
Proof.
  unfold github_regex. intros H.
  repeat match goal with
         | H : matchk (Seq _ _) _ _ = Some _ |- _ =>
             apply matchk_seq_inv in H as (? & H)
         end.
  now apply plus_class_maximal in H.
Qed.

Lemma re_match_rest (r : regex) (s m : string) :
  re_match r s = Some m ->
  exists rest,
    matchk r s (fun x => Some x) = Some rest /\ s = (m ++ rest)%string.
Proof.
  unfold re_match. intros H.
  destruct (matchk r s (fun rest => Some rest)) as [rest|] eqn:E; [|discriminate].
  destruct (matchk_sound _ _ _ _ E) as (w & rest' & -> & _ & Hk).
  inversion Hk; subst rest'. exists rest. split; [reflexivity|].
  inversion H. rewrite length_append.
  replace (String.length w + String.length rest - String.length rest)
    with (String.length w) by lia.
  now rewrite take_append.
Qed.

Lemma re_search_at (r : regex) (s m : string) :
  re_search r s = Some m ->
  exists pre rest, s = (pre ++ rest)%string /\ re_match r rest = Some m.
Proof.
  induction s as [|c s IH]; intros H; simpl in H.
  - destruct (re_match r "") as [w|] eqn:E; [|discriminate].
    inversion H; subst. now exists "", "".
  - destruct (re_match r (String c s)) as [w|] eqn:E.
    + inversion H; subst. now exists "", (String c s).
    + destruct (IH H) as (pre & rest & -> & Hm).
      now exists (String c pre), rest.
Qed.

Lemma all_chars_append (p : ascii -> bool) (a b : string) :
  all_chars p (a ++ b) = all_chars p a && all_chars p b.
Proof.
  induction a as [|c a IH]; simpl; [reflexivity|].
  now rewrite IH, andb_assoc.
Qed.

Lemma run_no_space (s : string) :
  all_chars not_space_slash s = true ->
  all_chars (fun c => negb (is_space c)) s = true.
Proof.
  induction s as [|c s IH]; simpl; [reflexivity|].
  intros H. apply andb_prop in H as [Hc Hs].
  unfold not_space_slash in Hc. apply andb_prop in Hc as [Hc _].
  now rewrite Hc, IH.
Qed.

Lemma github_url_no_space (secure www : bool) (owner repo : string) :
  run owner -> run repo ->
  all_chars (fun c => negb (is_space c)) (github_url secure www owner repo)
  = true.
Proof.
  intros [_ Ho] [_ Hr]. unfold github_url.
  rewrite !all_chars_append, (run_no_space _ Ho), (run_no_space _ Hr).
  now destruct secure, www.
Qed.

(** X8.  An extracted link is a piece of the leading text of one
    element of the record; it holds no whitespace; and it runs up to
    the end of that text or to the next whitespace or [/]: whatever
    else follows the repository name without a blank (a full stop, a
    bracket) is part of the link. *)
Theorem extracted_link_extent :
  forall (article : Element) (u : string),
    find_github_link article = Some u ->
    exists e s pre post,
      In e (iter article)
      /\ text e = Some s
      /\ s = (pre ++ u ++ post)%string
      /\ ends_run not_space_slash post
      /\ all_chars (fun c => negb (is_space c)) u = true.
Proof.
  intros article u H.
  apply first_link_some in H as (before & e & after & s & Hit & Ht & Hs & _).
  destruct (re_search_at _ _ _ Hs) as (pre & rest & -> & Hm).
  destruct (re_match_rest _ _ _ Hm) as (post & Hk & ->).
  destruct (re_match_sound _ _ _ Hm) as (_ & _ & Hl).
  destruct (github_lang_inv _ Hl) as (secure & www & owner & repo & -> & Ho & Hr).
  exists e, (pre ++ github_url secure www owner repo ++ post)%string, pre, post.
  split; [rewrite Hit; apply in_or_app; right; now left|].
  split; [exact Ht|]. split; [reflexivity|]. split.
  - now apply github_match_maximal in Hk.
  - now apply github_url_no_space.
Qed.

(** X8, witness: a URL at the end of a sentence keeps the full stop. *)
Lemma extracted_link_extent_witness :
  find_github_link punctuated_article = Some "https://github.com/acme/tool."
  /\ exists e s pre post,
      In e (iter punctuated_article)
      /\ text e = Some s
      /\ s = (pre ++ "https://github.com/acme/tool." ++ post)%string
      /\ ends_run not_space_slash post
      /\ all_chars (fun c => negb (is_space c)) "https://github.com/acme/tool."
         = true.
Proof.
  split; [reflexivity|].
  exact (extracted_link_extent punctuated_article
           "https://github.com/acme/tool." eq_refl).
Defined.

(** ** The summary of the first script *)

Lemma legacy_persist_summary (publications : list Legacy.Article)
      (d : disk Legacy.row) :
  fst (Legacy.persist publications d)
  = Legacy.summary_query (mkDatabase (Some (disk_rows d ++ publications))).
Proof.
  unfold Legacy.persist. simpl.
  destruct d as [[[rows|]]|]; destruct publications; simpl;
    now rewrite ?app_nil_r.
Qed.

(** X9.  The summary of the first script counts every row of the file it
    found, not only the records of the run: after a run that ends
    normally the total is the number of earlier rows plus the number of
    records retrieved, and the number with a link adds up likewise. *)
Theorem legacy_summary_counts_earlier_rows :
  forall (fuel : nat) (r : remote) (d d' : disk Legacy.row)
         (result : Legacy.Summary) (t : list event),
    Legacy.main fuel r d = ((Ok result, t), d') ->
    exists publications,
      fst (Legacy.get_all_publications fuel r query 10000 100) = Ok publications
      /\ disk_rows d' = disk_rows d ++ publications
      /\ Legacy.total result
         = (Z.of_nat (List.length (disk_rows d))
            + Z.of_nat (List.length publications))%Z
      /\ Legacy.with_github result
         = (legacy_with_link (disk_rows d) + legacy_with_link publications)%Z.
Proof.
  intros fuel r d d' result t H.
  destruct (legacy_main_Ok _ _ _ _ _ _ H) as (pubs & Hget & Hp).
  exists pubs. split; [now rewrite Hget|].
  pose proof (legacy_persist_rows pubs d) as Hrows.
  pose proof (legacy_persist_summary pubs d) as Hsum.
  rewrite <- Hp in Hrows, Hsum. simpl in Hrows, Hsum.
  split; [exact Hrows|]. subst result.
  unfold Legacy.summary_query, legacy_with_link, sql_count.
  cbn [Legacy.total Legacy.with_github table_rows publications].
  rewrite filter_app, !length_app, !Nat2Z.inj_add. split; reflexivity.
Qed.

(** X9, witness: the first script run on the scenario service over the
    file of an earlier run of it: four rows, two with a link. *)
Lemma legacy_summary_counts_earlier_rows_witness :
  let d1 := snd (Legacy.main 2 scenario_remote None) in
  Legacy.main 2 scenario_remote d1
  = ((Ok (Legacy.mkSummary 4 2),
      [Get (Search query 0 10000) 200%Z; Get (Fetch "1,2") 200%Z; Sleep 1]),
     snd (Legacy.main 2 scenario_remote d1))
  /\ exists publications,
      fst (Legacy.get_all_publications 2 scenario_remote query 10000 100)
      = Ok publications
      /\ disk_rows (snd (Legacy.main 2 scenario_remote d1))
         = disk_rows d1 ++ publications
      /\ Legacy.total (Legacy.mkSummary 4 2)
         = (Z.of_nat (List.length (disk_rows d1))
            + Z.of_nat (List.length publications))%Z
      /\ Legacy.with_github (Legacy.mkSummary 4 2)
         = (legacy_with_link (disk_rows d1) + legacy_with_link publications)%Z.
Proof.
  intros d1.
  assert (Hrun : Legacy.main 2 scenario_remote d1
                 = ((Ok (Legacy.mkSummary 4 2),
                     [Get (Search query 0 10000) 200%Z;
                      Get (Fetch "1,2") 200%Z; Sleep 1]),
                    snd (Legacy.main 2 scenario_remote d1)))
    by reflexivity.
  split; [exact Hrun|].
  exact (legacy_summary_counts_earlier_rows _ _ _ _ _ _ Hrun).
Defined.

(** ** Identifiers without text *)

Lemma join_comma_None (ids : list (option string)) :
  In None ids -> join_comma ids = (Raise TypeError, []).
Proof.
  induction ids as [|[x|] l IH]; intros H; [contradiction| |reflexivity].
  destruct H as [H|H]; [discriminate|].
  destruct l as [|y l]; [contradiction|].
  change (join_comma (Some x :: y :: l))
    with (s <- join_comma (y :: l) ;; ret (x ++ "," ++ s)%string).
  now rewrite (IH H).
Qed.

Lemma current_fetch_all_None (r : remote) (fs : nat)
      (ids : list (option string)) :
  0 < fs -> In None (firstn fs ids) ->
  Current.fetch_all r fs ids = (Raise TypeError, []).
Proof.
  intros Hfs Hin.
  assert (Hn : 0 < List.length ids)
    by (destruct ids; [now rewrite firstn_nil in Hin | simpl; lia]).
  destruct (first_index _ _ Hn Hfs) as (rest & Hidx).
  unfold Current.fetch_all. rewrite (py_range_pos _ _ Hfs), bind_ret, Hidx.
  cbn [for_each]. cbv zeta.
  assert (Hslice : slice ids 0 (0 + fs) = firstn fs ids)
    by (unfold slice; simpl; now rewrite Nat.sub_0_r).
  rewrite Hslice. unfold Current.fetch_pubmed_details.
  destruct (firstn fs ids) as [|i batch]; [contradiction|].
  now rewrite (join_comma_None _ Hin).
Qed.

Lemma legacy_fetch_all_None (r : remote) (fs : nat)
      (ids : list (option string)) :
  0 < fs -> In None (firstn fs ids) ->
  Legacy.fetch_all r fs ids = (Raise TypeError, []).
Proof.
  intros Hfs Hin.
  assert (Hn : 0 < List.length ids)
    by (destruct ids; [now rewrite firstn_nil in Hin | simpl; lia]).
  destruct (first_index _ _ Hn Hfs) as (rest & Hidx).
  unfold Legacy.fetch_all. rewrite (py_range_pos _ _ Hfs), bind_ret, Hidx.
  cbn [for_each]. cbv zeta.
  assert (Hslice : slice ids 0 (0 + fs) = firstn fs ids)
    by (unfold slice; simpl; now rewrite Nat.sub_0_r).
  rewrite Hslice. unfold Legacy.fetch_pubmed_details.
  destruct (firstn fs ids) as [|i batch]; [contradiction|].
  now rewrite (join_comma_None _ Hin).
Qed.

(** X10.  An [Id] element without text yields the identifier [None];
    when one is in the first batch, [get_all_publications] ends with a
    [TypeError] raised by the join of the batch, before any fetch
    request is made: the trace holds the page requests only.  Both
    scripts. *)
Theorem blank_id_stops_before_fetch :
  forall (fuel : nat) (r : remote) (q : string) (b fs : nat)
         (ids : list (option string)) (t : list event),
    0 < fs ->
    In None (firstn fs ids) ->
    (Current.pager fuel r q b [] 0 None = (Ok ids, t) ->
     Current.get_all_publications fuel r q b fs = (Raise TypeError, t))
    /\ (Legacy.pager fuel r q b [] 0 = (Ok ids, t) ->
        Legacy.get_all_publications fuel r q b fs = (Raise TypeError, t)).
Proof.
  intros fuel r q b fs ids t Hfs Hin. split; intros Hp.
  - unfold Current.get_all_publications.
    rewrite (bind_Ok _ _ _ _ Hp), (current_fetch_all_None r fs ids Hfs Hin).
    simpl. now rewrite app_nil_r.
  - unfold Legacy.get_all_publications.
    rewrite (bind_Ok _ _ _ _ Hp), (legacy_fetch_all_None r fs ids Hfs Hin).
    simpl. now rewrite app_nil_r.
Qed.

(** X10, witness: a search page with one empty [Id] element. *)
Lemma blank_id_stops_before_fetch_witness :
  Current.get_all_publications 2 blank_id_remote query 100 100
  = (Raise TypeError, [Get (Search query 0 100) 200%Z]).
Proof.
  apply (proj1 (blank_id_stops_before_fetch
                  2 blank_id_remote query 100 100 [None]
                  [Get (Search query 0 100) 200%Z]
                  (Nat.lt_0_succ 99) (or_introl eq_refl))).
  reflexivity.
Defined.

(** ** What a fetch returns *)

Lemma for_each_Forall2 {A B : Type} (f : A -> M B) (l : list A) :
  forall ys,
    fst (for_each f l) = Ok ys ->
    Forall2 (fun x y => fst (f x) = Ok y) l ys.
Proof.
  induction l as [|x l IH]; intros ys H; simpl in H.
  - inversion H. constructor.
  - apply bind_fst_Ok_inv in H as (y & Hy & H).
    apply bind_fst_Ok_inv in H as (ys' & Hys & H).
    inversion H; subst. constructor; [exact Hy | now apply IH].
Qed.

Lemma findall_PubmedArticle_children (root : Element) :
  findall path_PubmedArticle root
  = filter (has_tag "PubmedArticle") (children root).
Proof. unfold findall. simpl. now rewrite app_nil_r. Qed.

(** X11.  The records of a batch are read off the response alone: when
    [fetch_pubmed_details] of the revised script returns for a
    non-empty batch, the response had status 200 and the result holds
    one record for every [PubmedArticle] child of its root, in document
    order.  Children with another tag (a [PubmedBookArticle]) give no
    record, and nothing relates the records to the identifiers that
    were asked for. *)
Theorem fetched_records_follow_the_response :
  forall (r : remote) (ids : list (option string))
         (articles : list Current.Article),
    ids <> [] ->
    fst (Current.fetch_pubmed_details r ids) = Ok articles ->
    exists s root,
      fst (join_comma ids) = Ok s
      /\ status_code (r (Fetch s)) = 200%Z
      /\ content (r (Fetch s)) = Some root
      /\ Forall2 (fun element a => fst (Current.parse_article element) = Ok a)
                 (filter (has_tag "PubmedArticle") (children root)) articles.
Proof.
  intros r ids articles Hne H. unfold Current.fetch_pubmed_details in H.
  destruct ids as [|i ids]; [congruence|].
  apply bind_fst_Ok_inv in H as (s & Hs & H).
  apply bind_fst_Ok_inv in H as (resp & Hresp & H).
  inversion Hresp; subst resp.
  destruct (status_code (r (Fetch s)) =? 200)%Z eqn:E; [|discriminate].
  apply bind_fst_Ok_inv in H as (root & Hroot & H).
  exists s, root. split; [exact Hs|]. split; [now apply Z.eqb_eq|].
  destruct (content (r (Fetch s))) as [root'|]; [|discriminate].
  inversion Hroot; subst root'. split; [reflexivity|].
  rewrite <- findall_PubmedArticle_children. now apply for_each_Forall2.
Qed.

(** X11, witness: two identifiers asked for, a book entry and one
    article returned: one record. *)
Lemma fetched_records_follow_the_response_witness :
  fst (Current.fetch_pubmed_details book_remote [Some "1"; Some "8"])
  = Ok [scenario_record "1"]
  /\ exists s root,
      fst (join_comma [Some "1"; Some "8"]) = Ok s
      /\ status_code (book_remote (Fetch s)) = 200%Z
      /\ content (book_remote (Fetch s)) = Some root
      /\ Forall2 (fun element a => fst (Current.parse_article element) = Ok a)
                 (filter (has_tag "PubmedArticle") (children root))
                 [scenario_record "1"].
Proof.
  assert (Hne : [Some "1"; Some "8"] <> []) by discriminate.
  assert (Hrun : fst (Current.fetch_pubmed_details book_remote
                                                   [Some "1"; Some "8"])
                 = Ok [scenario_record "1"]) by reflexivity.
  split; [exact Hrun|].
  exact (fetched_records_follow_the_response _ _ _ Hne Hrun).
Defined.

(** ** A search without result *)

(** X12.  When the first search page is empty, [get_all_publications]
    ends normally with no record after that one request: no further
    page is asked for, no fetch request is made and nothing sleeps.
    The revised script needs a count on the page for that (see C6); the
    first script does not. *)
Theorem empty_search_makes_no_fetch :
  forall (fuel : nat) (r : remote) (q : string) (b fs : nat),
    0 < b -> 0 < fs ->
    (forall T,
        fst (Current.search_pubmed r q 0 b) = Ok ([], Some T) ->
        Current.get_all_publications (S fuel) r q b fs
        = (Ok [], [Get (Search q 0 b) 200%Z]))
    /\ (fst (Legacy.search_pubmed r q 0 b) = Ok [] ->
        Legacy.get_all_publications (S fuel) r q b fs
        = (Ok [], [Get (Search q 0 b) 200%Z])).
Proof.
  intros fuel r q b fs Hb Hfs.
  assert (Hrange : py_range 0 fs = ret []).
  { rewrite (py_range_pos _ _ Hfs).
    replace ((0 + fs - 1) / fs) with 0; [reflexivity|].
    symmetry. apply Nat.div_small. lia. }
  apply Nat.ltb_lt in Hb.
  split.
  - intros T Hp. unfold Current.get_all_publications.
    rewrite current_pager_S.
    rewrite (bind_Ok _ _ _ _ (current_search_Ok _ _ _ _ _ Hp)).
    cbv beta iota zeta. unfold len_ge. rewrite bind_ret.
    cbn [app List.length]. rewrite Hb, orb_true_r.
    cbn [fst snd ret]. unfold bind at 1.
    unfold Current.fetch_all. cbn [List.length]. rewrite Hrange.
    reflexivity.
  - intros Hp. unfold Legacy.get_all_publications.
    rewrite legacy_pager_S.
    rewrite (bind_Ok _ _ _ _ (proj1 (legacy_search_Ok _ _ _ _ _ Hp))).
    cbv beta iota zeta. cbn [app List.length]. rewrite Hb.
    cbn [fst snd ret]. unfold bind at 1.
    unfold Legacy.fetch_all. cbn [List.length]. rewrite Hrange.
    reflexivity.
Qed.

(** X12, witness: the service without result. *)
Lemma empty_search_makes_no_fetch_witness :
  Current.get_all_publications 1 empty_remote query 100 100
  = (Ok [], [Get (Search query 0 100) 200%Z])
  /\ Legacy.get_all_publications 1 empty_remote query 100 100
     = (Ok [], [Get (Search query 0 100) 200%Z]).
Proof.
  destruct (empty_search_makes_no_fetch 0 empty_remote query 100 100
              (Nat.lt_0_succ 99) (Nat.lt_0_succ 99)) as [HC HL].
  split; [exact (HC 0%Z eq_refl) | exact (HL eq_refl)].
Defined.

(** ** Failing requests in the first script *)

Lemma legacy_search_fail_fast (r : remote) (q : string) (start b : nat) :
  fail_fast r (Legacy.search_pubmed r q start b).
Proof.
  unfold Legacy.search_pubmed.
  apply (fail_fast_get r (Search q start b)). intros resp.
  apply fail_fast_bind; [apply fail_fast_fromstring|]. intros root.
  apply fail_fast_pure.
Qed.

Lemma legacy_parse_fail_fast (r : remote) (article : Element) :
  fail_fast r (Legacy.parse_article article).
Proof.
  unfold Legacy.parse_article.
  apply fail_fast_bind; [apply fail_fast_dot_text|]. intros p.
  apply fail_fast_bind; [apply fail_fast_dot_text|]. intros t.
  apply fail_fast_pure.
Qed.

Lemma legacy_fetch_fail_fast (r : remote) (ids : list (option string)) :
  fail_fast r (Legacy.fetch_pubmed_details r ids).
Proof.
  unfold Legacy.fetch_pubmed_details.
  destruct ids as [|i ids]; [apply fail_fast_pure|].
  apply fail_fast_bind; [apply fail_fast_join_comma|]. intros s.
  apply (fail_fast_get r (Fetch s)). intros resp.
  apply fail_fast_bind; [apply fail_fast_fromstring|]. intros root.
  apply fail_fast_for_each. intros a. apply legacy_parse_fail_fast.
Qed.

Lemma legacy_pager_fail_fast (r : remote) (q : string) (b : nat) :
  forall fuel acc start,
    fail_fast r (Legacy.pager fuel r q b acc start).
Proof.
  induction fuel as [|fuel IH]; intros acc start.
  - apply fail_fast_pure.
  - rewrite legacy_pager_S.
    apply fail_fast_bind; [apply legacy_search_fail_fast|].
    intros ids. cbv zeta.
    destruct (List.length ids <? b)%nat; [apply fail_fast_pure|].
    apply fail_fast_bind; [apply fail_fast_sleep|]. intros _. apply IH.
Qed.

Lemma legacy_get_all_fail_fast (fuel : nat) (r : remote) (q : string)
      (b fs : nat) :
  fail_fast r (Legacy.get_all_publications fuel r q b fs).
Proof.
  unfold Legacy.get_all_publications.
  apply fail_fast_bind; [apply legacy_pager_fail_fast|].
  intros ids. unfold Legacy.fetch_all.
  apply fail_fast_bind; [apply fail_fast_py_range|]. intros idx.
  apply fail_fast_bind; [|intros; apply fail_fast_pure].
  apply fail_fast_for_each. intros i.
  apply fail_fast_bind; [apply legacy_fetch_fail_fast|]. intros ps.
  apply fail_fast_bind; [apply fail_fast_sleep|]. intros _.
  apply fail_fast_pure.
Qed.

Lemma legacy_main_trace (fuel : nat) (r : remote) (d : disk Legacy.row) :
  snd (fst (Legacy.main fuel r d))
  = snd (Legacy.get_all_publications fuel r query 10000 100).
Proof.
  unfold Legacy.main.
  destruct (Legacy.get_all_publications fuel r query 10000 100)
    as [[pubs|e|] t]; reflexivity.
Qed.

Lemma legacy_main_Raise (fuel : nat) (r : remote) (d : disk Legacy.row)
      (e : error) :
  fst (Legacy.get_all_publications fuel r query 10000 100) = Raise e ->
  fst (fst (Legacy.main fuel r d)) = Raise e /\
  snd (Legacy.main fuel r d) = d.
Proof.
  unfold Legacy.main.
  destruct (Legacy.get_all_publications fuel r query 10000 100)
    as [[pubs|e'|] t]; simpl; try discriminate.
  intros H; inversion H. now split.
Qed.

(** X1.  The first script fails fast as well: in a run of it, a
    request answered with a status other than 200 is the last event of
    the run, the outcome is the exception for that endpoint and status,
    the request is not made a second time, and the database file is the
    one the run started with. *)
Theorem legacy_failed_request_aborts_run :
  forall (fuel : nat) (r : remote) (d : disk Legacy.row)
         (i : nat) (rq : request) (st : Z),
    nth_error (snd (fst (Legacy.main fuel r d))) i = Some (Get rq st) ->
    st <> 200%Z ->
    fst (fst (Legacy.main fuel r d)) = Raise (RemoteError (endpoint_of rq) st)
    /\ S i = List.length (snd (fst (Legacy.main fuel r d)))
    /\ (forall j st',
           nth_error (snd (fst (Legacy.main fuel r d))) j = Some (Get rq st') ->
           j = i)
    /\ snd (Legacy.main fuel r d) = d.
Proof.
  intros fuel r d i rq st Hi Hst.
  pose proof (legacy_get_all_fail_fast fuel r query 10000 100) as Hff.
  rewrite legacy_main_trace in *.
  destruct (Hff i rq st Hi) as [Hans Hbad].
  destruct (Hbad Hst) as [Ho Hlen].
  destruct (legacy_main_Raise fuel r d _ Ho) as [Hm Hd].
  repeat split; trivial.
  intros j st' Hj.
  destruct (Hff j rq st' Hj) as [Hans' Hbad'].
  assert (Hst' : st' <> 200%Z) by congruence.
  destruct (Hbad' Hst') as [_ Hlen']. lia.
Qed.

(** X1, witness: the search endpoint answers 503 on the first page. *)
Lemma legacy_failed_request_aborts_run_witness :
  let r : remote := fun _ => mkResponse 503 None in
  Legacy.main 2 r None
  = ((Raise (RemoteError ESearch 503),
      [Get (Search query 0 10000) 503%Z]), None).
Proof.
  intros r.
  destruct (legacy_failed_request_aborts_run
              2 r None 0 (Search query 0 10000) 503%Z)
    as (Ho & Hlen & _ & Hd).
  - reflexivity.
  - discriminate.
  - rewrite (surjective_pairing (Legacy.main 2 r None)).
    rewrite (surjective_pairing (fst (Legacy.main 2 r None))).
    rewrite Ho, Hd. reflexivity.
Defined.
